(** * A shallow embedding of [src/model.py]

    The module builds a capacitated vehicle routing formulation, hands it
    to an external routing library, and decodes the assignment that comes
    back into per-vehicle stop sequences.  The routing library is not part
    of the repository: it is represented by a record of operations
    ([Ortools]) that [solve] is parameterised over, and every property that
    depends on how the library behaves takes that behaviour as an explicit
    hypothesis.  The library's constructors and its search are taken to
    return normally on every argument: what the library does with an
    exception that one of the callbacks raises while the search runs is not
    modelled.

    The first part of the file holds the definitions, the second part the
    properties. *)

From Stdlib Require Import String ZArith List Lia Bool Sorted FinFun.
From Stdlib Require Import DecimalString Ascii.
Import ListNotations.
Open Scope Z_scope.

Set Implicit Arguments.

(** ** The fragment of the Python runtime that the module relies on *)

Module Py.

(** The exceptions the module's own statements can raise once the arguments
    are well typed: an out-of-range subscript, and an integer too large to
    convert to a float. *)
Inductive exn : Type :=
| IndexError
| OverflowError.

(** Outcome of running a block: a value, an exception, or a loop that was
    still running when the step budget ended ([while True] has no bound of
    its own). *)
Inductive result (A : Type) : Type :=
| Ok (a : A)
| Raise (e : exn)
| OutOfFuel.

Arguments Ok {A} a.
Arguments Raise {A} e.
Arguments OutOfFuel {A}.

Definition bind {A B : Type} (c : result A) (k : A -> result B) : result B :=
  match c with
  | Ok a => k a
  | Raise e => Raise e
  | OutOfFuel => OutOfFuel
  end.

(** [len(l)] *)
Definition len {A : Type} (l : list A) : Z := Z.of_nat (length l).

(** [l[i]]: a negative subscript counts from the end of the list. *)
Definition index {A : Type} (l : list A) (i : Z) : result A :=
  let j := if i <? 0 then i + len l else i in
  if j <? 0 then Raise IndexError
  else match nth_error l (Z.to_nat j) with
       | Some x => Ok x
       | None => Raise IndexError
       end.

(** [range(n)]; empty when [n <= 0]. *)
Definition range (n : Z) : list Z := map Z.of_nat (seq 0 (Z.to_nat n)).

(** [l[1:]] *)
Definition tail {A : Type} (l : list A) : list A := tl l.

(** Truth value of an optional integer argument: [None] and [0] are
    both falsy. *)
Definition truthy (o : option Z) : bool :=
  match o with
  | None => false
  | Some n => negb (n =? 0)
  end.

(** [n.bit_length()] *)
Definition bit_length (n : Z) : Z :=
  if n =? 0 then 0 else Z.log2 (Z.abs n) + 1.

(** [n >= 0] rounded to a multiple of [2^k], ties to the even multiple. *)
Definition round_half_even (n k : Z) : Z :=
  if k <=? 0 then n
  else
    let q := Z.shiftr n k in
    let r := n - Z.shiftl q k in
    let half := Z.shiftl 1 (k - 1) in
    let q' := if r <? half then q
              else if half <? r then q + 1
              else if Z.even q then q else q + 1 in
    Z.shiftl q' k.

(** Rounding to the 53 significant bits of a double. *)
Definition round53 (x : Z) : Z :=
  Z.sgn x * round_half_even (Z.abs x) (bit_length x - 53).

(** [int(d * 0.75)] for an integer [d]: [d] is converted to the nearest
    double, which fails when that double would reach [2^1024]; the product
    with [0.75], exactly three quarters of that double, is rounded to a
    double again; [int] truncates towards zero. *)
Definition int_mul_075 (d : Z) : result Z :=
  let f := round53 d in
  if 1024 <? bit_length f then Raise OverflowError
  else Ok (Z.quot (round53 (3 * f)) 4).

End Py.

Import Py.

Notation "x <- c ;; k" := (bind c (fun x => k))
  (at level 61, c at next level, right associativity).

(** ** The interface of the routing library *)

(** [pywrapcp.RoutingIndexManager] *)
Record RoutingIndexManager : Type := {
  IndexToNode : Z -> Z;
  GetNumberOfNodes : Z;
  GetNumberOfVehicles : Z;
  GetStartIndex : Z -> Z;
  GetEndIndex : Z -> Z
}.

(** [pywrapcp.RoutingModel], the read-only part. *)
Record RoutingModel : Type := {
  Size : Z;
  vehicles : Z;
  Start : Z -> Z;
  End : Z -> Z;
  IsEnd : Z -> bool
}.

(** An assignment is read only through
    [assignment.Value(model.NextVar(idx))]. *)
Record Assignment : Type := { NextValue : Z -> Z }.

(** A registered transit callback: [RegisterTransitCallback] takes a function
    of the two positions of an arc, [RegisterUnaryTransitCallback] a function
    of the position the arc leaves. *)
Inductive TransitCallback : Type :=
| Transit (f : Z -> Z -> result Z)
| UnaryTransit (f : Z -> result Z).

Definition transit (cb : TransitCallback) (i j : Z) : result Z :=
  match cb with
  | Transit f => f i j
  | UnaryTransit f => f i
  end.

(** The arguments of one [AddDimensionWithVehicleCapacity] call. *)
Record Dimension : Type := {
  evaluator : TransitCallback;
  slack_max : Z;
  vehicle_capacities : list Z;
  fix_start_cumul_to_zero : bool;
  name : string
}.

(** The arguments of one [SetCumulVarSoftUpperBound] call. *)
Record SoftUpperBound : Type := {
  position : Z;
  upper_bound : Z;
  coefficient : Z
}.

Inductive FirstSolutionStrategy : Type :=
| AUTOMATIC
| PATH_CHEAPEST_ARC.

Record SearchParameters : Type := {
  first_solution_strategy : FirstSolutionStrategy;
  time_limit_seconds : Z
}.

(** Everything [solve] has told the library by the time it starts the
    search. *)
Record Formulation : Type := {
  the_manager : RoutingIndexManager;
  the_model : RoutingModel;
  arc_cost_evaluator : TransitCallback;
  distance_dimension : Dimension;
  capacity_dimension : Dimension;
  distance_soft_upper_bounds : list SoftUpperBound;
  search_parameters : SearchParameters
}.

(** The library itself: the two constructors and the search.  The search is
    taken as a function of what it was given. *)
Record Ortools : Type := {
  NewRoutingIndexManager : Z -> Z -> Z -> RoutingIndexManager;
  NewRoutingModel : RoutingIndexManager -> RoutingModel;
  SolveWithParameters : Formulation -> option Assignment
}.

(** ** Data of the module *)

Module Node.
(** An element of [nodes]; only [.lat] and [.lon] are read. *)
Record t (coord : Type) : Type := { lat : coord; lon : coord }.
End Node.

(** [namedtuple("Stop", ["idx", "lat", "lon", "demand", "dist"])] *)
Record Stop (coord : Type) : Type := STOP {
  idx : Z;
  lat : coord;
  lon : coord;
  demand : Z;
  dist : Z
}.

(** The parameters of [solve]. *)
Record Args (coord : Type) : Type := {
  nodes : list (Node.t coord);
  distance_matrix : list (list Z);
  demand_arg : list Z;
  depot_index : Z;
  vehicle_cap : Z;
  num_vehicles : option Z;
  distance_constraint_int : Z;
  soft_distance_constrint_int : option Z;
  soft_distance_penalty : Z;
  max_search_seconds : Z
}.

(** A call that leaves every optional parameter at its default. *)
Definition default_args (coord : Type) (nodes : list (Node.t coord))
    (distance_matrix : list (list Z)) (demand : list Z) : Args coord :=
  {| nodes := nodes;
     distance_matrix := distance_matrix;
     demand_arg := demand;
     depot_index := 0;
     vehicle_cap := 26;
     num_vehicles := None;
     distance_constraint_int := 100000;
     soft_distance_constrint_int := None;
     soft_distance_penalty := 100000;
     max_search_seconds := 5 |}.

(** The same call with another [demand], [num_vehicles] or
    [soft_distance_constrint_int]. *)
Definition with_demand (coord : Type) (d : list Z) (a : Args coord)
    : Args coord :=
  {| nodes := nodes a;
     distance_matrix := distance_matrix a;
     demand_arg := d;
     depot_index := depot_index a;
     vehicle_cap := vehicle_cap a;
     num_vehicles := num_vehicles a;
     distance_constraint_int := distance_constraint_int a;
     soft_distance_constrint_int := soft_distance_constrint_int a;
     soft_distance_penalty := soft_distance_penalty a;
     max_search_seconds := max_search_seconds a |}.

Definition with_num_vehicles (coord : Type) (n : option Z) (a : Args coord)
    : Args coord :=
  {| nodes := nodes a;
     distance_matrix := distance_matrix a;
     demand_arg := demand_arg a;
     depot_index := depot_index a;
     vehicle_cap := vehicle_cap a;
     num_vehicles := n;
     distance_constraint_int := distance_constraint_int a;
     soft_distance_constrint_int := soft_distance_constrint_int a;
     soft_distance_penalty := soft_distance_penalty a;
     max_search_seconds := max_search_seconds a |}.

Definition with_soft_bound (coord : Type) (s : option Z) (a : Args coord)
    : Args coord :=
  {| nodes := nodes a;
     distance_matrix := distance_matrix a;
     demand_arg := demand_arg a;
     depot_index := depot_index a;
     vehicle_cap := vehicle_cap a;
     num_vehicles := num_vehicles a;
     distance_constraint_int := distance_constraint_int a;
     soft_distance_constrint_int := s;
     soft_distance_penalty := soft_distance_penalty a;
     max_search_seconds := max_search_seconds a |}.

(** ** [get_dropped_nodes] *)

Definition get_dropped_nodes (model : RoutingModel) (assignment : Assignment)
    : list Z :=
  fold_left
    (fun dropped idx =>
       if NextValue assignment idx =? idx then dropped ++ [idx] else dropped)
    (range (Size model)) [].

(** The test of the loop body: position [idx] is its own successor. *)
Definition is_dropped (assignment : Assignment) (idx : Z) : bool :=
  NextValue assignment idx =? idx.

(** ** [solve] *)

Section Solve.

Variable coord : Type.
Variable lib : Ortools.
Variable a : Args coord.

Definition NUM_NODES : Z := len (distance_matrix a).

Definition DEMAND : list Z :=
  if len (distance_matrix a) - 1 =? len (demand_arg a)
  then [0] ++ demand_arg a
  else demand_arg a.

Definition NUM_VEHICLES : Z :=
  if negb (truthy (num_vehicles a)) then len (tail DEMAND)
  else match num_vehicles a with Some n => n | None => 0 end.

Definition VEHICLES : list Z :=
  map (fun _ => vehicle_cap a) (range NUM_VEHICLES).

Definition DISTANCE_CONSTRAINT : Z := distance_constraint_int a.

Definition SOFT_DISTANCE_CONSTRAINT : result Z :=
  if negb (truthy (soft_distance_constrint_int a))
  then int_mul_075 DISTANCE_CONSTRAINT
  else Ok (distance_constraint_int a).

Definition SOFT_DISTANCE_PENALTY : Z := soft_distance_penalty a.
Definition MAX_SEARCH_SECONDS : Z := max_search_seconds a.

Definition manager : RoutingIndexManager :=
  NewRoutingIndexManager lib NUM_NODES NUM_VEHICLES (depot_index a).

(** [distance_matrix[i][j]] *)
Definition matrix_entry (i j : Z) : result Z :=
  row <- index (distance_matrix a) i ;; index row j.

Definition matrix_callback (i j : Z) : result Z :=
  let node_i := IndexToNode manager i in
  let node_j := IndexToNode manager j in
  matrix_entry node_i node_j.

Definition demand_callback (i : Z) : result Z :=
  index DEMAND (IndexToNode manager i).

Definition model : RoutingModel := NewRoutingModel lib manager.

(** The state of the model when [SolveWithParameters] is called, given the
    value [SOFT_DISTANCE_CONSTRAINT] was bound to. *)
Definition formulation (soft_bound : Z) : Formulation :=
  {| the_manager := manager;
     the_model := model;
     arc_cost_evaluator := Transit matrix_callback;
     distance_dimension :=
       {| evaluator := Transit matrix_callback;
          slack_max := 0;
          vehicle_capacities :=
            map (fun _ => distance_constraint_int a) (range NUM_VEHICLES);
          fix_start_cumul_to_zero := true;
          name := "Distance"%string |};
     capacity_dimension :=
       {| evaluator := UnaryTransit demand_callback;
          slack_max := 0;
          vehicle_capacities := map (fun cap => cap) VEHICLES;
          fix_start_cumul_to_zero := true;
          name := "Capacity"%string |};
     distance_soft_upper_bounds :=
       map (fun i =>
              {| position := End model i;
                 upper_bound := soft_bound;
                 coefficient := SOFT_DISTANCE_PENALTY |})
           (range (GetNumberOfVehicles manager));
     search_parameters :=
       {| first_solution_strategy := PATH_CHEAPEST_ARC;
          time_limit_seconds := MAX_SEARCH_SECONDS |} |}.

(** Lines 64 to 144: what [assignment] is bound to.  [None] is the
    library's null assignment. *)
Definition search : result (option Assignment) :=
  soft_bound <- SOFT_DISTANCE_CONSTRAINT ;;
  Ok (SolveWithParameters lib (formulation soft_bound)).

(** The body of [while True]: one iteration per unit of [fuel].  The loop
    assigns [prev_node] at the end of each iteration but reads
    [prev_node_index], which is set once before the loop. *)
Fixpoint walk (assignment : Assignment) (fuel : nat)
    (prev_node_index : Z) (idx : Z) (route : list (Stop coord))
    : result (list (Stop coord)) :=
  match fuel with
  | O => OutOfFuel
  | S fuel' =>
      let node_index := IndexToNode manager idx in
      node <- index (nodes a) node_index ;;
      let lat := Node.lat node in
      let lon := Node.lon node in
      demand <- index DEMAND node_index ;;
      dist <- matrix_entry prev_node_index node_index ;;
      let route := route ++ [STOP node_index lat lon demand dist] in
      if IsEnd model idx then Ok route
      else
        let prev_node := node_index in
        walk assignment fuel' prev_node_index
             (NextValue assignment idx) route
  end.

(** The loop over [range(model.vehicles())]. *)
Fixpoint decode (assignment : Assignment) (fuel : nat)
    (route_numbers : list Z) (solution : list (list (Stop coord)))
    : result (list (list (Stop coord))) :=
  match route_numbers with
  | [] => Ok solution
  | _route_number :: rest =>
      let idx := Start model _route_number in
      if IsEnd model (NextValue assignment idx)
      then decode assignment fuel rest solution
      else
        let prev_node_index := IndexToNode manager idx in
        route <- walk assignment fuel prev_node_index idx [] ;;
        decode assignment fuel rest (solution ++ [route])
  end.

(** [solve]: [Ok None] is Python's [None], returned by falling off the
    end of the function when the assignment is falsy. *)
Definition solve (fuel : nat) : result (option (list (list (Stop coord)))) :=
  found <- search ;;
  match found with
  | Some assignment =>
      solution <- decode assignment fuel (range (vehicles model)) [] ;;
      Ok (Some solution)
  | None => Ok None
  end.

End Solve.

Arguments NUM_NODES {coord} a.
Arguments DEMAND {coord} a.
Arguments NUM_VEHICLES {coord} a.
Arguments VEHICLES {coord} a.
Arguments DISTANCE_CONSTRAINT {coord} a.
Arguments SOFT_DISTANCE_CONSTRAINT {coord} a.
Arguments SOFT_DISTANCE_PENALTY {coord} a.
Arguments MAX_SEARCH_SECONDS {coord} a.
Arguments matrix_entry {coord} a i j.

(** ** Notions used to state the properties *)

(** The positions a vehicle's loop visits: from [i], following assigned
    successors, up to and including the first end position. *)
Inductive path (m : RoutingModel) (assignment : Assignment)
    : Z -> list Z -> Prop :=
| path_end (i : Z) :
    IsEnd m i = true -> path m assignment i [i]
| path_step (i : Z) (ps : list Z) :
    IsEnd m i = false ->
    path m assignment (NextValue assignment i) ps ->
    path m assignment i (i :: ps).

(** The positions of vehicle [v]'s route under an assignment. *)
Inductive on_route (m : RoutingModel) (assignment : Assignment) (v : Z)
    : Z -> Prop :=
| on_route_start : on_route m assignment v (Start m v)
| on_route_next (i : Z) :
    on_route m assignment v i ->
    IsEnd m i = false ->
    on_route m assignment v (NextValue assignment i).

(** What the library guarantees of an assignment for a dimension added with
    [AddDimensionWithVehicleCapacity]: along the route of vehicle [v] the
    cumulative value stays between 0 and the vehicle's capacity, starts at 0
    when the dimension says so, and grows from a position to its successor by
    the transit value plus a slack between 0 and the dimension's maximum. *)
Definition bounded_along (m : RoutingModel) (assignment : Assignment)
    (d : Dimension) (cumul : Z -> Z) (v : Z) : Prop :=
  exists cap,
    nth_error (vehicle_capacities d) (Z.to_nat v) = Some cap
    /\ (fix_start_cumul_to_zero d = true -> cumul (Start m v) = 0)
    /\ forall i,
         on_route m assignment v i ->
         0 <= cumul i <= cap
         /\ (IsEnd m i = false ->
             exists t slack,
               transit (evaluator d) i (NextValue assignment i) = Ok t
               /\ 0 <= slack <= slack_max d
               /\ cumul (NextValue assignment i) = cumul i + t + slack).

Definition satisfies_dimension (m : RoutingModel) (assignment : Assignment)
    (d : Dimension) : Prop :=
  exists cumul,
    forall v, In v (range (vehicles m)) ->
              bounded_along m assignment d cumul v.

(** A route begins (ends) with a stop at logical node [n]. *)
Definition begins_at (coord : Type) (route : list (Stop coord)) (n : Z)
    : Prop :=
  exists s rest, route = s :: rest /\ idx s = n.

Definition ends_at (coord : Type) (route : list (Stop coord)) (n : Z)
    : Prop :=
  exists front s, route = front ++ [s] /\ idx s = n.

(** [sum(s.demand for s in stops)] *)
Definition total_demand (coord : Type) (stops : list (Stop coord)) : Z :=
  fold_right (fun s acc => demand s + acc) 0 stops.

Section Notions.

Variable coord : Type.
Variable lib : Ortools.
Variable a : Args coord.
Variable assignment : Assignment.

(** What the loop body records for position [p] when the loop's
    [prev_node_index] is [prev]. *)
Definition stop_at (prev p : Z) (s : Stop coord) : Prop :=
  idx s = IndexToNode (manager lib a) p
  /\ (exists node, index (nodes a) (idx s) = Ok node
                   /\ lat s = Node.lat node /\ lon s = Node.lon node)
  /\ index (DEMAND a) (idx s) = Ok (demand s)
  /\ matrix_entry a prev (idx s) = Ok (dist s).

(** [range(model.vehicles())] *)
Definition fleet : list Z := range (vehicles (model lib a)).

(** A vehicle is used when the successor of its start is not an end. *)
Definition used (v : Z) : bool :=
  negb (IsEnd (model lib a)
              (NextValue assignment (Start (model lib a) v))).

(** The route the loop records for vehicle [v]. *)
Definition route_of (fuel : nat) (v : Z) : result (list (Stop coord)) :=
  walk lib a assignment fuel
       (IndexToNode (manager lib a) (Start (model lib a) v))
       (Start (model lib a) v) [].

(** The logical node a vehicle visits first after leaving its start. *)
Definition first_node (v : Z) : Z :=
  IndexToNode (manager lib a)
              (NextValue assignment (Start (model lib a) v)).

(** The chain of successors from vehicle [v]'s start reaches an end within
    [fuel] positions, and every subscript the loop evaluates on the way is in
    range. *)
Definition route_well_formed (fuel : nat) (v : Z) : Prop :=
  exists ps,
    path (model lib a) assignment (Start (model lib a) v) ps
    /\ (length ps <= fuel)%nat
    /\ forall p, In p ps ->
         exists node dem dst,
           index (nodes a) (IndexToNode (manager lib a) p) = Ok node
           /\ index (DEMAND a) (IndexToNode (manager lib a) p) = Ok dem
           /\ matrix_entry a
                (IndexToNode (manager lib a) (Start (model lib a) v))
                (IndexToNode (manager lib a) p)
              = Ok dst.

End Notions.

(** ** A concrete instance of the library interface

    Used to run [solve] on sample inputs.  Positions follow the layout of a
    single-depot fleet of [V] vehicles over [N] nodes: every node keeps its
    own number as a position, the depot's position is the start of vehicle
    0, positions [N .. N+V-2] are the starts of the other vehicles and
    positions [N+V-1 .. N+2V-2] are the ends.  The search is replaced by a
    table of successors fixed in advance. *)

Module Sample.

Definition index_manager (num_nodes num_vehicles depot : Z)
    : RoutingIndexManager :=
  {| IndexToNode := fun i =>
       if (0 <=? i) && (i <? num_nodes) then i else depot;
     GetNumberOfNodes := num_nodes;
     GetNumberOfVehicles := num_vehicles;
     GetStartIndex := fun v =>
       if v =? 0 then depot else num_nodes + v - 1;
     GetEndIndex := fun v => num_nodes + num_vehicles - 1 + v |}.

Definition routing_model (m : RoutingIndexManager) : RoutingModel :=
  let size := GetNumberOfNodes m + GetNumberOfVehicles m - 1 in
  {| Size := size;
     vehicles := GetNumberOfVehicles m;
     Start := GetStartIndex m;
     End := GetEndIndex m;
     IsEnd := fun i => size <=? i |}.

(** Successor of position [i] is the [i]-th entry of [successors]; a
    position outside the table is its own successor. *)
Definition table (successors : list Z) : Assignment :=
  {| NextValue := fun i =>
       if i <? 0 then i else nth (Z.to_nat i) successors i |}.

Definition library (plan : option (list Z)) : Ortools :=
  {| NewRoutingIndexManager := index_manager;
     NewRoutingModel := routing_model;
     SolveWithParameters := fun _ => option_map table plan |}.

Definition node (x y : Z) : Node.t Z := {| Node.lat := x; Node.lon := y |}.

(** One depot and two customers, one vehicle, a hard bound of 1000 and a
    soft bound of 500. *)
Definition three_args : Args Z :=
  {| nodes := [node 0 0; node 3 4; node 6 8];
     distance_matrix := [[0; 5; 7]; [5; 0; 3]; [7; 3; 0]];
     demand_arg := [4; 6];
     depot_index := 0;
     vehicle_cap := 26;
     num_vehicles := Some 1;
     distance_constraint_int := 1000;
     soft_distance_constrint_int := Some 500;
     soft_distance_penalty := 100000;
     max_search_seconds := 5 |}.

(** Positions 0 (depot, start), 1, 2, and 3 (end): the tour 0, 1, 2, 0. *)
Definition one_tour : list Z := [1; 2; 3].

Definition one_tour_library : Ortools := library (Some one_tour).

Definition one_tour_solution : list (list (Stop Z)) :=
  [[ STOP 0 0 0 0 0; STOP 1 3 4 4 5; STOP 2 6 8 6 7; STOP 0 0 0 0 0 ]].


(** Two vehicles for a single customer: vehicle 0 serves it (positions 0,
    1, 3) and vehicle 1 goes from its start, position 2, straight to its
    end, position 4. *)
Definition spare_vehicle_args : Args Z :=
  {| nodes := [node 0 0; node 3 4];
     distance_matrix := [[0; 5]; [5; 0]];
     demand_arg := [3];
     depot_index := 0;
     vehicle_cap := 26;
     num_vehicles := Some 2;
     distance_constraint_int := 1000;
     soft_distance_constrint_int := None;
     soft_distance_penalty := 100000;
     max_search_seconds := 5 |}.

Definition spare_vehicle_plan : list Z := [1; 3; 4].

End Sample.

(** ** Text and lengths *)

Module PyStr.

(** [str(n)] for an integer: decimal digits, with a leading minus sign for a
    negative number. *)
Definition str (n : Z) : string := NilZero.string_of_int (Z.to_int n).

(** The one-character string holding a line feed. *)
Definition nl : string := String (ascii_of_nat 10) EmptyString.

(** [sep.join(parts)] *)
Definition join (sep : string) (parts : list string) : string :=
  String.concat sep parts.

(** [enumerate(l)], counting from [start]. *)
Fixpoint enumerate_from {A : Type} (start : Z) (l : list A) : list (Z * A) :=
  match l with
  | [] => []
  | x :: rest => (start, x) :: enumerate_from (start + 1) rest
  end.

Definition enumerate {A : Type} (l : list A) : list (Z * A) :=
  enumerate_from 0 l.

End PyStr.

Import PyStr.

(** ** [get_solution_str] *)

Section Printing.

Variable coord : Type.

(** [repr] of a coordinate, a float in the callers of the module. *)
Variable repr_coord : coord -> string.

(** [str] of a [Stop]: a named tuple prints its type name and its fields by
    name. *)
Definition repr_Stop (s : Stop coord) : string :=
  ("Stop(idx=" ++ str (idx s)
   ++ ", lat=" ++ repr_coord (lat s)
   ++ ", lon=" ++ repr_coord (lon s)
   ++ ", demand=" ++ str (demand s)
   ++ ", dist=" ++ str (dist s) ++ ")")%string.

(** The text the format call gives an element [k] of [enumerate(r)]: its
    two components, separated by a colon and a space. *)
Definition format_entry (k : Z * Stop coord) : string :=
  (str (fst k) ++ ": " ++ repr_Stop (snd k))%string.

(** One iteration of the loop of [get_solution_str]. *)
Definition append_route (_str : string) (ir : Z * list (Stop coord))
    : string :=
  let i := fst ir in
  let r := snd ir in
  let _str := (_str ++ ("Route(idx=" ++ str i ++ ")" ++ nl))%string in
  let s := join nl (map format_entry (enumerate r)) in
  (_str ++ (s ++ (nl ++ nl)))%string.

Definition get_solution_str (solution : list (list (Stop coord))) : string :=
  fold_left append_route (enumerate solution) EmptyString.

(** The text one route contributes when it is the [i]-th of the solution. *)
Definition route_text (i : Z) (r : list (Stop coord)) : string :=
  append_route EmptyString (i, r).

End Printing.

(** ** [visualize_solution] *)

(** The part of the plotting library the function drives: a figure is the
    list of traces added to it and the layout it was last given. *)
Module Plot.

Record Line : Type := { width : Z; color : string }.

Record Marker : Type := {
  size : Z;
  marker_color : string;
  marker_line : Line
}.

(** The keyword arguments of one [go.Scattergeo(...)] call; an argument that
    is not passed is [None]. *)
Record Scattergeo (coord : Type) : Type := {
  locationmode : string;
  lat : list coord;
  lon : list coord;
  hoverinfo : option string;
  text : option (list string);
  mode : string;
  marker : option Marker;
  line : option Line
}.

Record Geo : Type := {
  scope : string;
  projection_type : string;
  showland : bool;
  landcolor : string;
  countrycolor : string
}.

Record Layout : Type := {
  title_text : string;
  showlegend : bool;
  template : string;
  geo : Geo
}.

Record Figure (coord : Type) : Type := {
  data : list (Scattergeo coord);
  layout : option Layout
}.

(** [go.Figure()] *)
Definition empty (coord : Type) : Figure coord :=
  {| data := []; layout := None |}.

(** [fig.add_trace(t)] *)
Definition add_trace (coord : Type) (fig : Figure coord)
    (t : Scattergeo coord) : Figure coord :=
  {| data := data fig ++ [t]; layout := layout fig |}.

(** [fig.update_layout(...)] on a figure whose layout holds nothing else. *)
Definition update_layout (coord : Type) (fig : Figure coord) (l : Layout)
    : Figure coord :=
  {| data := data fig; layout := Some l |}.

End Plot.

Section Visualize.

Variable coord : Type.

(** The five lists the first loop fills. *)
Record Collected : Type := {
  lats : list coord;
  lons : list coord;
  text : list string;
  lat_paths : list (list coord);
  lon_paths : list (list coord)
}.

Definition nothing_collected : Collected :=
  {| lats := []; lons := []; text := []; lat_paths := []; lon_paths := [] |}.

(** What the first loop adds to the five lists for the stops [stops]
    and the pairs of stops [pairs]. *)
Definition collected_more (c : Collected) (stops : list (Stop coord))
    (pairs : list (Stop coord * Stop coord)) : Collected :=
  {| lats := lats c ++ map (@lat coord) stops;
     lons := lons c ++ map (@lon coord) stops;
     text :=
       text c ++ map (fun s => ("demand: " ++ str (demand s))%string) stops;
     lat_paths :=
       lat_paths c ++ map (fun p => [lat (fst p); lat (snd p)]) pairs;
     lon_paths :=
       lon_paths c ++ map (fun p => [lon (fst p); lon (snd p)]) pairs |}.

(** The inner loop, over the elements [(j, s)] of [enumerate(r)] that are
    still to come. *)
Fixpoint collect_stops (r : list (Stop coord)) (js : list (Z * Stop coord))
    (c : Collected) : result Collected :=
  match js with
  | [] => Ok c
  | (j, s) :: rest =>
      r_j <- index r j ;;
      let c :=
        {| lats := lats c ++ [lat s];
           lons := lons c ++ [lon s];
           text := text c ++ [("demand: " ++ str (demand r_j))%string];
           lat_paths := lat_paths c;
           lon_paths := lon_paths c |} in
      if j <? len r - 1 then
        r_next <- index r (j + 1) ;;
        collect_stops r rest
          {| lats := lats c;
             lons := lons c;
             text := text c;
             lat_paths := lat_paths c ++ [[lat s; lat r_next]];
             lon_paths := lon_paths c ++ [[lon s; lon r_next]] |}
      else collect_stops r rest c
  end.

(** The outer loop, over the routes of the solution. *)
Fixpoint collect_routes (solution : list (Z * list (Stop coord)))
    (c : Collected) : result Collected :=
  match solution with
  | [] => Ok c
  | (i, r) :: rest =>
      c <- collect_stops r (enumerate r) c ;;
      collect_routes rest c
  end.

Definition markers_trace (c : Collected) : Plot.Scattergeo coord :=
  {| Plot.locationmode := "USA-states";
     Plot.lat := lats c;
     Plot.lon := lons c;
     Plot.hoverinfo := Some "text"%string;
     Plot.text := Some (text c);
     Plot.mode := "markers";
     Plot.marker :=
       Some {| Plot.size := 5;
               Plot.marker_color := "rgb(255, 0, 0)";
               Plot.marker_line :=
                 {| Plot.width := 3;
                    Plot.color := "rgba(68, 68, 68, 0)" |} |};
     Plot.line := None |}.

(** The trace the second loop adds for one segment. *)
Definition line_trace (lat0 lat1 lon0 lon1 : coord) : Plot.Scattergeo coord :=
  {| Plot.locationmode := "USA-states";
     Plot.lat := [lat0; lat1];
     Plot.lon := [lon0; lon1];
     Plot.hoverinfo := None;
     Plot.text := None;
     Plot.mode := "lines";
     Plot.marker := None;
     Plot.line := Some {| Plot.width := 1; Plot.color := "red" |} |}.

(** The trace that joins a pair of stops. *)
Definition segment_trace (p : Stop coord * Stop coord)
    : Plot.Scattergeo coord :=
  line_trace (lat (fst p)) (lat (snd p)) (lon (fst p)) (lon (snd p)).

(** The second loop: one trace per entry of [lat_paths]. *)
Fixpoint add_lines (c : Collected) (indices : list Z)
    (fig : Plot.Figure coord) : result (Plot.Figure coord) :=
  match indices with
  | [] => Ok fig
  | i :: rest =>
      lat_path <- index (lat_paths c) i ;;
      lat0 <- index lat_path 0 ;;
      lat1 <- index lat_path 1 ;;
      lon_path <- index (lon_paths c) i ;;
      lon0 <- index lon_path 0 ;;
      lon1 <- index lon_path 1 ;;
      add_lines c rest (Plot.add_trace fig (line_trace lat0 lat1 lon0 lon1))
  end.

Definition the_layout : Plot.Layout :=
  {| Plot.title_text := "";
     Plot.showlegend := false;
     Plot.template := "plotly_dark";
     Plot.geo :=
       {| Plot.scope := "north america";
          Plot.projection_type := "azimuthal equal area";
          Plot.showland := true;
          Plot.landcolor := "rgb(243, 243, 243)";
          Plot.countrycolor := "rgb(204, 204, 204)" |} |}.

(** [visualize_solution]: the result is the figure [fig.show()] is called
    on. *)
Definition visualize_solution (solution : list (list (Stop coord)))
    : result (Plot.Figure coord) :=
  c <- collect_routes (enumerate solution) nothing_collected ;;
  let fig := Plot.empty coord in
  let fig := Plot.add_trace fig (markers_trace c) in
  fig <- add_lines c (range (len (lat_paths c))) fig ;;
  Ok (Plot.update_layout fig the_layout).

End Visualize.

(** ** Further notions used to state the properties *)

(** The distance travelled from node [prev] through [nodes] in order. *)
Fixpoint tour_length (coord : Type) (a : Args coord) (prev : Z)
    (nodes : list Z) : result Z :=
  match nodes with
  | [] => Ok 0
  | n :: rest =>
      d <- matrix_entry a prev n ;;
      t <- tour_length a n rest ;;
      Ok (d + t)
  end.

(** The distance travelled along a route, from its first stop to its last. *)
Definition route_length (coord : Type) (a : Args coord)
    (route : list (Stop coord)) : result Z :=
  match map (@idx coord) route with
  | [] => Ok 0
  | n :: rest => tour_length a n rest
  end.

(** The pairs of consecutive elements of a list. *)
Fixpoint consecutive (A : Type) (l : list A) : list (A * A) :=
  match l with
  | x :: (y :: _) as rest => (x, y) :: consecutive rest
  | _ => []
  end.

(** ** Further sample calls *)

Module MoreSamples.

(** The three-node call with every optional parameter at its default. *)
Definition plain_args : Args Z :=
  default_args (nodes Sample.three_args)
               (distance_matrix Sample.three_args) [4; 6].

(** The three-node call with a hard bound of [2^1024] and no soft bound. *)
Definition huge_bound_args : Args Z :=
  {| nodes := nodes Sample.three_args;
     distance_matrix := distance_matrix Sample.three_args;
     demand_arg := [4; 6];
     depot_index := 0;
     vehicle_cap := 26;
     num_vehicles := Some 1;
     distance_constraint_int := 2 ^ 1024;
     soft_distance_constrint_int := None;
     soft_distance_penalty := 100000;
     max_search_seconds := 5 |}.

(** The three-node call without coordinates. *)
Definition no_nodes_args : Args Z :=
  {| nodes := [];
     distance_matrix := distance_matrix Sample.three_args;
     demand_arg := [4; 6];
     depot_index := 0;
     vehicle_cap := 26;
     num_vehicles := Some 1;
     distance_constraint_int := 1000;
     soft_distance_constrint_int := None;
     soft_distance_penalty := 100000;
     max_search_seconds := 5 |}.

(** Both vehicles of the two-vehicle call go from start to end; the
    customer, position 1, is its own successor. *)
Definition idle_plan : list Z := [3; 1; 4].

(** The vehicle of the three-node call reaches position 1, which is its
    own successor. *)
Definition looping_plan : list Z := [1; 1; 3].

End MoreSamples.

(** * Properties *)

(** ** Facts about the runtime fragment *)

Lemma in_range (n x : Z) : In x (range n) <-> 0 <= x < n.
Proof.
  unfold range. rewrite in_map_iff. split.
  - intros [k [<- Hk]]. apply in_seq in Hk. lia.
  - intros Hx. exists (Z.to_nat x). split; [lia|]. apply in_seq. lia.
Qed.

Lemma of_nat_seq_sorted (k n : nat) :
  StronglySorted Z.lt (map Z.of_nat (seq k n)).
Proof.
  revert k. induction n as [|n IH]; intros k; simpl.
  - constructor.
  - constructor; [apply IH|].
    apply Forall_forall. intros y Hy.
    apply in_map_iff in Hy. destruct Hy as [j [<- Hj]].
    apply in_seq in Hj. lia.
Qed.

Lemma range_sorted (n : Z) : StronglySorted Z.lt (range n).
Proof. apply of_nat_seq_sorted. Qed.

Lemma range_NoDup (n : Z) : NoDup (range n).
Proof.
  unfold range. apply Injective_map_NoDup.
  - intros x y Hxy. lia.
  - apply seq_NoDup.
Qed.

Lemma length_range (n : Z) : 0 <= n -> len (range n) = n.
Proof.
  intros Hn. unfold len, range. rewrite length_map, length_seq. lia.
Qed.

Lemma filter_sorted (p : Z -> bool) (l : list Z) :
  StronglySorted Z.lt l -> StronglySorted Z.lt (filter p l).
Proof.
  induction 1 as [|x l Hl IH Hx]; simpl; [constructor|].
  destruct (p x); [|exact IH].
  constructor; [exact IH|].
  rewrite Forall_forall in *. intros y Hy.
  apply filter_In in Hy. apply Hx, Hy.
Qed.


(** ** [get_dropped_nodes] *)

Section Dropped.

Variable model : RoutingModel.
Variable assignment : Assignment.

(** The appending loop computes a filter, whatever it starts from. *)
Lemma dropped_loop (l acc : list Z) :
  fold_left
    (fun dropped idx =>
       if is_dropped assignment idx then dropped ++ [idx] else dropped)
    l acc
  = acc ++ filter (is_dropped assignment) l.
Proof.
  revert acc. induction l as [|x l IH]; intros acc; simpl.
  - now rewrite app_nil_r.
  - rewrite IH. destruct (is_dropped assignment x); [|reflexivity].
    now rewrite <- app_assoc.
Qed.

Lemma get_dropped_nodes_filter :
  get_dropped_nodes model assignment
  = filter (is_dropped assignment) (range (Size model)).
Proof. unfold get_dropped_nodes. apply dropped_loop. Qed.

(** C9: [get_dropped_nodes] returns exactly the positions [idx] of
    [0 .. model.Size()-1] whose assigned successor is [idx] itself, in
    increasing order of position. *)
Theorem get_dropped_nodes_exact :
  get_dropped_nodes model assignment
  = filter (fun idx => NextValue assignment idx =? idx)
           (range (Size model))
  /\ (forall idx,
        In idx (get_dropped_nodes model assignment)
        <-> 0 <= idx <= Size model - 1 /\ NextValue assignment idx = idx)
  /\ StronglySorted Z.lt (get_dropped_nodes model assignment).
Proof.
  rewrite get_dropped_nodes_filter. split; [reflexivity|]. split.
  - intros idx. rewrite filter_In, in_range. unfold is_dropped.
    rewrite Z.eqb_eq. lia.
  - apply filter_sorted, range_sorted.
Qed.

End Dropped.

(** ** Calls that resolve to the same configuration *)

Section Extensionality.

Variable coord : Type.
Variable lib : Ortools.
Variables a1 a2 : Args coord.

Hypothesis same_nodes : nodes a1 = nodes a2.
Hypothesis same_matrix : distance_matrix a1 = distance_matrix a2.
Hypothesis same_DEMAND : DEMAND a1 = DEMAND a2.
Hypothesis same_depot : depot_index a1 = depot_index a2.
Hypothesis same_cap : vehicle_cap a1 = vehicle_cap a2.
Hypothesis same_NUM_VEHICLES : NUM_VEHICLES a1 = NUM_VEHICLES a2.
Hypothesis same_hard : distance_constraint_int a1 = distance_constraint_int a2.
Hypothesis same_SOFT :
  SOFT_DISTANCE_CONSTRAINT a1 = SOFT_DISTANCE_CONSTRAINT a2.
Hypothesis same_penalty : soft_distance_penalty a1 = soft_distance_penalty a2.
Hypothesis same_seconds : max_search_seconds a1 = max_search_seconds a2.

Lemma manager_ext : manager lib a1 = manager lib a2.
Proof.
  unfold manager, NUM_NODES.
  now rewrite same_matrix, same_NUM_VEHICLES, same_depot.
Qed.

Lemma model_ext : model lib a1 = model lib a2.
Proof. unfold model. now rewrite manager_ext. Qed.

Lemma matrix_entry_ext (i j : Z) : matrix_entry a1 i j = matrix_entry a2 i j.
Proof. unfold matrix_entry. now rewrite same_matrix. Qed.

Lemma matrix_callback_ext : matrix_callback lib a1 = matrix_callback lib a2.
Proof.
  unfold matrix_callback, matrix_entry.
  now rewrite manager_ext, same_matrix.
Qed.

Lemma formulation_ext (soft_bound : Z) :
  formulation lib a1 soft_bound = formulation lib a2 soft_bound.
Proof.
  unfold formulation, demand_callback, VEHICLES,
    SOFT_DISTANCE_PENALTY, MAX_SEARCH_SECONDS.
  now rewrite matrix_callback_ext, model_ext, manager_ext, same_DEMAND,
    same_NUM_VEHICLES, same_hard, same_cap, same_penalty, same_seconds.
Qed.

Lemma search_ext : search lib a1 = search lib a2.
Proof.
  unfold search. rewrite same_SOFT.
  destruct (SOFT_DISTANCE_CONSTRAINT a2); simpl; try reflexivity.
  now rewrite formulation_ext.
Qed.

Lemma walk_ext (assignment : Assignment) (fuel : nat) :
  forall prev_node_index idx route,
    walk lib a1 assignment fuel prev_node_index idx route
    = walk lib a2 assignment fuel prev_node_index idx route.
Proof.
  induction fuel as [|fuel' IH]; intros prev i route; simpl; [reflexivity|].
  rewrite manager_ext, model_ext, same_nodes, same_DEMAND, matrix_entry_ext.
  destruct (index (nodes a2) _); simpl; try reflexivity.
  destruct (index (DEMAND a2) _); simpl; try reflexivity.
  destruct (matrix_entry a2 _ _); simpl; try reflexivity.
  destruct (IsEnd (model lib a2) i); [reflexivity|]. apply IH.
Qed.

Lemma decode_ext (assignment : Assignment) (fuel : nat)
    (route_numbers : list Z) :
  forall solution,
    decode lib a1 assignment fuel route_numbers solution
    = decode lib a2 assignment fuel route_numbers solution.
Proof.
  induction route_numbers as [|v rest IH]; intros solution; simpl;
    [reflexivity|].
  rewrite manager_ext, model_ext, walk_ext.
  destruct (IsEnd _ _); [apply IH|].
  destruct (walk _ _ _ _ _ _ _); simpl; try reflexivity. apply IH.
Qed.

Lemma solve_ext (fuel : nat) : solve lib a1 fuel = solve lib a2 fuel.
Proof.
  unfold solve. rewrite search_ext, model_ext.
  destruct (search lib a2) as [[asg|]| |]; simpl; try reflexivity.
  now rewrite decode_ext.
Qed.

End Extensionality.

(** ** Resolution of the arguments *)

Section Resolution.

Variable coord : Type.
Variable lib : Ortools.
Variable a : Args coord.

Lemma DEMAND_exclusive (d : list Z) :
  len (distance_matrix a) - 1 = len d ->
  DEMAND (with_demand d a) = 0 :: d.
Proof.
  intros H. unfold DEMAND. simpl. apply Z.eqb_eq in H. now rewrite H.
Qed.

Lemma DEMAND_inclusive (d : list Z) :
  len (distance_matrix a) - 1 = len d ->
  DEMAND (with_demand (0 :: d) a) = 0 :: d.
Proof.
  intros H. unfold DEMAND. simpl.
  replace (len (distance_matrix a) - 1 =? len (0 :: d)) with false;
    [reflexivity|].
  symmetry. apply Z.eqb_neq. unfold len in *. simpl length. lia.
Qed.

(** C8: a depot-exclusive demand vector of length [N-1] and the
    depot-inclusive vector obtained by prepending a 0 give the same padded
    demand, the same resolved vehicle count, the same assignment from the
    search and the same outcome of [solve], all other arguments equal. *)
Theorem demand_padding_idempotent (d : list Z) (fuel : nat) :
  len (distance_matrix a) - 1 = len d ->
  DEMAND (with_demand d a) = DEMAND (with_demand (0 :: d) a)
  /\ NUM_VEHICLES (with_demand d a) = NUM_VEHICLES (with_demand (0 :: d) a)
  /\ search lib (with_demand d a) = search lib (with_demand (0 :: d) a)
  /\ solve lib (with_demand d a) fuel
     = solve lib (with_demand (0 :: d) a) fuel.
Proof.
  intros H.
  assert (HD : DEMAND (with_demand d a) = DEMAND (with_demand (0 :: d) a))
    by now rewrite DEMAND_exclusive, DEMAND_inclusive.
  assert (HV : NUM_VEHICLES (with_demand d a)
               = NUM_VEHICLES (with_demand (0 :: d) a))
    by (unfold NUM_VEHICLES; now rewrite HD).
  split; [exact HD|]. split; [exact HV|].
  split; [apply search_ext | apply solve_ext]; auto.
Qed.

(** C10: [num_vehicles=0] and [soft_distance_constrint_int=0] are treated
    as if the argument had been omitted: the vehicle count resolves to the
    number of demand entries after the depot's, the soft bound to its
    computed default, and [solve] gives the same outcome as the call without
    the argument. *)
Theorem zero_is_unspecified (fuel : nat) :
  NUM_VEHICLES (with_num_vehicles (Some 0) a) = len (tail (DEMAND a))
  /\ SOFT_DISTANCE_CONSTRAINT (with_soft_bound (Some 0) a)
     = int_mul_075 (distance_constraint_int a)
  /\ solve lib (with_num_vehicles (Some 0) a) fuel
     = solve lib (with_num_vehicles None a) fuel
  /\ solve lib (with_soft_bound (Some 0) a) fuel
     = solve lib (with_soft_bound None a) fuel.
Proof.
  split; [reflexivity|]. split; [reflexivity|].
  split; apply solve_ext; reflexivity.
Qed.

(** When the caller passes a non-zero soft bound, the value handed to the
    library is the hard bound. *)
Lemma SOFT_DISTANCE_CONSTRAINT_given (s : Z) :
  s <> 0 ->
  soft_distance_constrint_int a = Some s ->
  SOFT_DISTANCE_CONSTRAINT a = Ok (distance_constraint_int a).
Proof.
  intros Hs H. unfold SOFT_DISTANCE_CONSTRAINT. rewrite H. simpl.
  apply Z.eqb_neq in Hs. now rewrite Hs.
Qed.

Lemma SOFT_DISTANCE_CONSTRAINT_default :
  soft_distance_constrint_int a = None ->
  SOFT_DISTANCE_CONSTRAINT a = int_mul_075 (distance_constraint_int a).
Proof. intros H. unfold SOFT_DISTANCE_CONSTRAINT. now rewrite H. Qed.

(** Away from the rounding of doubles the default is three quarters of the
    hard bound, truncated towards zero. *)
Lemma int_mul_075_small (d : Z) :
  bit_length d <= 51 -> int_mul_075 d = Ok (Z.quot (3 * d) 4).
Proof.
  intros Hd. unfold int_mul_075.
  assert (Hr : forall x, bit_length x <= 53 -> round53 x = x).
  { intros x Hx. unfold round53, round_half_even.
    replace (bit_length x - 53 <=? 0) with true
      by (symmetry; apply Z.leb_le; lia).
    destruct x; simpl; lia. }
  rewrite (Hr d) by lia.
  replace (1024 <? bit_length d) with false
    by (symmetry; apply Z.ltb_ge; lia).
  rewrite Hr; [reflexivity|].
  unfold bit_length in *.
  destruct (d =? 0) eqn:H0.
  - apply Z.eqb_eq in H0. subst d. simpl. lia.
  - apply Z.eqb_neq in H0.
    replace (3 * d =? 0) with false by (symmetry; apply Z.eqb_neq; lia).
    assert (Hlog : Z.log2 (Z.abs (3 * d)) < 53); [|lia].
    apply Z.log2_lt_pow2; [lia|].
    assert (Hd' : Z.log2 (Z.abs d) < 51) by lia.
    apply Z.log2_lt_pow2 in Hd'; [|lia].
    change (2 ^ 53) with (4 * 2 ^ 51). lia.
Qed.

(** Every soft bound in the formulation the search receives carries the
    value [SOFT_DISTANCE_CONSTRAINT] was bound to. *)
Lemma soft_bounds_uniform (soft_bound : Z) :
  Forall (fun b => upper_bound b = soft_bound
                   /\ coefficient b = soft_distance_penalty a)
         (distance_soft_upper_bounds (formulation lib a soft_bound)).
Proof.
  apply Forall_forall. intros b Hb. simpl in Hb.
  apply in_map_iff in Hb. destruct Hb as [i [<- _]]. now split.
Qed.

End Resolution.

(** C2: with a hard bound of 1000 and a caller-supplied soft bound of 500,
    [SOFT_DISTANCE_CONSTRAINT] is 1000, and the soft upper bound in the
    formulation the search receives is 1000 on the vehicle's end position:
    the hard bound, not the 500 the caller supplied. *)
Theorem supplied_soft_bound_replaced_by_hard_bound :
  soft_distance_constrint_int Sample.three_args = Some 500
  /\ distance_constraint_int Sample.three_args = 1000
  /\ SOFT_DISTANCE_CONSTRAINT Sample.three_args = Ok 1000
  /\ distance_soft_upper_bounds
       (formulation Sample.one_tour_library Sample.three_args 1000)
     = [ {| position := 3; upper_bound := 1000; coefficient := 100000 |} ].
Proof. repeat split. Qed.

(** ** Decoding an assignment *)

Section Decoding.

Variable coord : Type.
Variable lib : Ortools.
Variable a : Args coord.
Variable assignment : Assignment.

Lemma walk_Ok (fuel : nat) :
  forall prev i route r,
    walk lib a assignment fuel prev i route = Ok r ->
    exists ps stops,
      path (model lib a) assignment i ps
      /\ Forall2 (stop_at lib a prev) ps stops
      /\ r = route ++ stops.
Proof.
  induction fuel as [|fuel' IH]; intros prev i route r; simpl;
    [discriminate|].
  destruct (index (nodes a) _) as [node| |] eqn:Hn; simpl; try discriminate.
  destruct (index (DEMAND a) _) as [dem| |] eqn:Hd; simpl; try discriminate.
  destruct (matrix_entry a prev _) as [dst| |] eqn:Hx; simpl;
    try discriminate.
  set (s := STOP (IndexToNode (manager lib a) i) (Node.lat node)
                 (Node.lon node) dem dst).
  assert (Hs : stop_at lib a prev i s).
  { unfold stop_at, s; simpl. repeat split; eauto. }
  destruct (IsEnd (model lib a) i) eqn:He.
  - intros [= <-]. exists [i], [s]. repeat split.
    + now constructor.
    + constructor; [exact Hs | constructor].
  - intros Hw. apply IH in Hw. destruct Hw as [ps [stops [Hp [Hf ->]]]].
    exists (i :: ps), (s :: stops). repeat split.
    + now constructor.
    + now constructor.
    + now rewrite <- app_assoc.
Qed.

(** Enough fuel gives the route: the loop returns as soon as the chain of
    successors reaches an end position and every subscript is in range. *)
Lemma walk_total (prev i : Z) (ps : list Z) :
  path (model lib a) assignment i ps ->
  (forall p, In p ps ->
     exists node dem dst,
       index (nodes a) (IndexToNode (manager lib a) p) = Ok node
       /\ index (DEMAND a) (IndexToNode (manager lib a) p) = Ok dem
       /\ matrix_entry a prev (IndexToNode (manager lib a) p) = Ok dst) ->
  forall fuel route,
    (length ps <= fuel)%nat ->
    exists stops,
      walk lib a assignment fuel prev i route = Ok (route ++ stops)
      /\ length stops = length ps.
Proof.
  induction 1 as [i He | i ps He Hp IH]; intros Hok fuel route Hfuel;
    (destruct fuel as [|fuel']; [simpl in Hfuel; lia|]);
    destruct (Hok i (or_introl eq_refl)) as [node [dem [dst [Hn [Hd Hx]]]]];
    simpl; rewrite Hn; simpl; rewrite Hd; simpl; rewrite Hx; simpl;
    rewrite He.
  - eexists. split; reflexivity.
  - destruct (IH (fun p Hin => Hok p (or_intror Hin)) fuel'
                 (route ++ [STOP (IndexToNode (manager lib a) i)
                                 (Node.lat node) (Node.lon node) dem dst]))
      as [stops [Hw Hl]].
    { simpl in Hfuel. lia. }
    rewrite Hw. eexists. split.
    + now rewrite <- app_assoc.
    + simpl. now rewrite Hl.
Qed.

(** The loop over the vehicles appends, in order, the routes of the used
    vehicles. *)
Lemma decode_Ok (fuel : nat) (route_numbers : list Z) :
  forall solution result,
    decode lib a assignment fuel route_numbers solution = Ok result ->
    exists routes,
      result = solution ++ routes
      /\ Forall2 (fun v route => route_of lib a assignment fuel v = Ok route)
                 (filter (used lib a assignment) route_numbers) routes.
Proof.
  induction route_numbers as [|v rest IH]; intros solution result; simpl.
  - intros [= <-]. exists []. split; [now rewrite app_nil_r | constructor].
  - unfold used at 1.
    destruct (IsEnd (model lib a) _); simpl.
    + apply IH.
    + destruct (walk _ _ _ _ _ _ _) as [route| |] eqn:Hw; simpl;
        try discriminate.
      intros Hd. apply IH in Hd. destruct Hd as [routes [-> Hf]].
      exists (route :: routes). split.
      * now rewrite <- app_assoc.
      * now constructor.
Qed.

Lemma decode_total (fuel : nat) (route_numbers : list Z) :
  (forall v, In v route_numbers -> used lib a assignment v = true ->
             route_well_formed lib a assignment fuel v) ->
  forall solution,
    exists routes,
      decode lib a assignment fuel route_numbers solution
      = Ok (solution ++ routes).
Proof.
  induction route_numbers as [|v rest IH]; intros Hwf solution; simpl.
  - exists []. now rewrite app_nil_r.
  - assert (Hrest : forall w, In w rest ->
                               used lib a assignment w = true ->
                               route_well_formed lib a assignment fuel w)
      by (intros w Hw; apply Hwf; now right).
    destruct (IsEnd (model lib a)
                    (NextValue assignment (Start (model lib a) v))) eqn:He.
    + apply IH, Hrest.
    + destruct (Hwf v (or_introl eq_refl)) as [ps [Hp [Hlen Hok]]].
      { unfold used. now rewrite He. }
      destruct (@walk_total _ _ ps Hp Hok fuel [] Hlen) as [stops [Hw _]].
      rewrite Hw. simpl.
      destruct (IH Hrest (solution ++ [stops])) as [routes Hd].
      rewrite Hd. exists (stops :: routes). now rewrite <- app_assoc.
Qed.

(** The solution of a call whose search returned [assignment] lists, in
    order, the routes of the used vehicles. *)
Lemma solve_Ok (fuel : nat) (sol : list (list (Stop coord))) :
  search lib a = Ok (Some assignment) ->
  solve lib a fuel = Ok (Some sol) ->
  Forall2 (fun v route => route_of lib a assignment fuel v = Ok route)
          (filter (used lib a assignment)
                  (range (vehicles (model lib a))))
          sol.
Proof.
  intros Hs. unfold solve. rewrite Hs. simpl.
  destruct (decode _ _ _ _ _ _) as [result| |] eqn:Hd; simpl;
    try discriminate.
  intros [= <-]. apply decode_Ok in Hd.
  destruct Hd as [routes [-> Hf]]. exact Hf.
Qed.

(** With enough fuel for every used vehicle, [solve] returns a solution
    whenever the search returns an assignment. *)
Lemma solve_total (fuel : nat) :
  search lib a = Ok (Some assignment) ->
  (forall v, In v (range (vehicles (model lib a))) ->
             used lib a assignment v = true ->
             route_well_formed lib a assignment fuel v) ->
  exists sol, solve lib a fuel = Ok (Some sol).
Proof.
  intros Hs Hwf. unfold solve. rewrite Hs. simpl.
  destruct (@decode_total fuel _ Hwf []) as [routes Hd].
  rewrite Hd. simpl. now exists routes.
Qed.

End Decoding.

Lemma solve_Some_inv (coord : Type) (lib : Ortools) (a : Args coord)
    (fuel : nat) (sol : list (list (Stop coord))) :
  solve lib a fuel = Ok (Some sol) ->
  exists assignment, search lib a = Ok (Some assignment).
Proof.
  unfold solve. destruct (search lib a) as [[asg|]| |]; simpl;
    try discriminate.
  eauto.
Qed.

(** ** The recorded distances *)

Section Distances.

Variable coord : Type.
Variable lib : Ortools.
Variable a : Args coord.

(** Every stop of a decoded route, whatever its place in the route, records
    the matrix entry from the node of the start position of the route's own
    vehicle to the stop's own node. *)
Lemma dist_is_measured_from_start (assignment : Assignment) (fuel : nat)
    (sol : list (list (Stop coord))) :
  search lib a = Ok (Some assignment) ->
  solve lib a fuel = Ok (Some sol) ->
  Forall2
    (fun v route =>
       route_of lib a assignment fuel v = Ok route
       /\ Forall
            (fun s =>
               matrix_entry a
                 (IndexToNode (manager lib a) (Start (model lib a) v))
                 (idx s)
               = Ok (dist s))
            route)
    (filter (used lib a assignment) (fleet lib a)) sol.
Proof.
  intros Hs Hsol.
  pose proof (@solve_Ok _ _ _ _ fuel sol Hs Hsol) as Hroutes.
  clear Hsol. fold (fleet lib a) in Hroutes.
  induction Hroutes as [|v route vs routes Hw _ IH]; [constructor|].
  constructor; [|exact IH].
  split; [exact Hw|].
  apply walk_Ok in Hw. destruct Hw as [ps [stops [_ [Hst ->]]]].
  simpl. clear -Hst.
  induction Hst as [|p s ps stops Hps _ IHs]; [constructor|].
  constructor; [|exact IHs].
  now destruct Hps as [_ [_ [_ Hd]]].
Qed.

End Distances.

(** C1: on the tour depot, 1, 2, depot over a matrix with
    [distance_matrix[0][2] = 7], [distance_matrix[1][2] = 3] and
    [distance_matrix[2][0] = 7], the stop at node 2 records 7, the entry from
    the depot, where the previous stop is node 1 at distance 3; the closing
    depot stop records 0 where the previous stop is node 2 at distance 7. *)
Theorem dist_ignores_previous_stop :
  solve Sample.one_tour_library Sample.three_args 4
  = Ok (Some [[ STOP 0 0 0 0 0; STOP 1 3 4 4 5;
                STOP 2 6 8 6 7; STOP 0 0 0 0 0 ]])
  /\ matrix_entry Sample.three_args 1 2 = Ok 3
  /\ matrix_entry Sample.three_args 0 2 = Ok 7
  /\ matrix_entry Sample.three_args 2 0 = Ok 7
  /\ matrix_entry Sample.three_args 0 0 = Ok 0.
Proof. repeat split. Qed.

(** ** Outcomes of [solve] *)

Section Outcomes.

Variable coord : Type.
Variable lib : Ortools.
Variable a : Args coord.

Lemma solve_None (fuel : nat) :
  search lib a = Ok None -> solve lib a fuel = Ok None.
Proof. intros H. unfold solve. now rewrite H. Qed.

(** C4: when the search produces no assignment, [solve] returns [None]: it
    does not raise, and what it returns is not a list of routes, empty or
    otherwise. *)
Theorem no_assignment_gives_None (fuel : nat) :
  search lib a = Ok None ->
  solve lib a fuel = Ok None
  /\ (forall e, solve lib a fuel <> Raise e)
  /\ solve lib a fuel <> Ok (Some [])
  /\ (forall sol, solve lib a fuel <> Ok (Some sol)).
Proof.
  intros H. rewrite (solve_None fuel H).
  repeat split; intros; discriminate.
Qed.


End Outcomes.


(** ** Shape of a decoded route *)

Lemma path_head (m : RoutingModel) (assignment : Assignment) (i : Z)
    (ps : list Z) :
  path m assignment i ps -> exists rest, ps = i :: rest.
Proof. destruct 1; eauto. Qed.

Lemma path_last (m : RoutingModel) (assignment : Assignment) (i : Z)
    (ps : list Z) :
  path m assignment i ps ->
  exists front p, ps = front ++ [p] /\ IsEnd m p = true.
Proof.
  induction 1 as [i He | i ps He _ [front [p [-> Hp]]]].
  - exists [], i. now split.
  - exists (i :: front), p. now split.
Qed.

Lemma used_in_fleet (coord : Type) (lib : Ortools) (a : Args coord)
    (assignment : Assignment) (fleet : list Z) (v : Z) :
  In v (filter (used lib a assignment) fleet) ->
  In v fleet /\ used lib a assignment v = true.
Proof. apply filter_In. Qed.

Section Depot.

Variable coord : Type.
Variable lib : Ortools.
Variable a : Args coord.

(** What the index manager promises: the start position of every vehicle
    and every end position stand for the depot. *)
Hypothesis start_is_depot :
  forall v, In v (range (vehicles (model lib a))) ->
            IndexToNode (manager lib a) (Start (model lib a) v)
            = depot_index a.
Hypothesis end_is_depot :
  forall i, IsEnd (model lib a) i = true ->
            IndexToNode (manager lib a) i = depot_index a.

Lemma route_depot_to_depot (assignment : Assignment) (fuel : nat)
    (v : Z) (route : list (Stop coord)) :
  In v (range (vehicles (model lib a))) ->
  route_of lib a assignment fuel v = Ok route ->
  begins_at route (depot_index a) /\ ends_at route (depot_index a).
Proof.
  intros Hv Hw. apply walk_Ok in Hw.
  destruct Hw as [ps [stops [Hp [Hf ->]]]]. simpl. split.
  - destruct (path_head Hp) as [rest ->].
    inversion Hf as [|p s ps' stops' Hs _]; subst.
    exists s, stops'. split; [reflexivity|].
    destruct Hs as [-> _]. now apply start_is_depot.
  - destruct (path_last Hp) as [front [p [-> He]]].
    apply Forall2_app_inv_l in Hf.
    destruct Hf as [l1 [l2 [_ [Hl2 ->]]]].
    inversion Hl2 as [|p' s ps' stops' Hs Hnil]; subst.
    inversion Hnil; subst.
    exists l1, s. split; [reflexivity|].
    destruct Hs as [-> _]. now apply end_is_depot.
Qed.

(** C5: in a call that returns a solution, every route begins with a stop
    whose node is the depot index and ends with a stop whose node is the
    depot index. *)
Theorem routes_begin_and_end_at_depot (fuel : nat)
    (sol : list (list (Stop coord))) :
  solve lib a fuel = Ok (Some sol) ->
  Forall (fun route => begins_at route (depot_index a)
                       /\ ends_at route (depot_index a))
         sol.
Proof.
  intros Hsol. destruct (solve_Some_inv _ _ _ Hsol) as [asg Hs].
  pose proof (@solve_Ok _ _ _ _ fuel sol Hs Hsol) as Hf. clear Hsol Hs.
  pose proof (@used_in_fleet _ lib a asg
                (range (vehicles (model lib a)))) as Hin.
  induction Hf as [|v route vs routes Hw _ IH]; [constructor|].
  constructor.
  - eapply route_depot_to_depot; [|exact Hw].
    apply (Hin v). now left.
  - apply IH. intros w Hw'. apply (Hin w). now right.
Qed.

End Depot.

(** ** The Capacity dimension *)

Lemma total_demand_cons (coord : Type) (s : Stop coord)
    (stops : list (Stop coord)) :
  total_demand (s :: stops) = demand s + total_demand stops.
Proof. reflexivity. Qed.

Lemma removelast_cons2 (A : Type) (x y : A) (l : list A) :
  removelast (x :: y :: l) = x :: removelast (y :: l).
Proof. reflexivity. Qed.

Section Capacity.

Variable coord : Type.
Variable lib : Ortools.
Variable a : Args coord.
Variable assignment : Assignment.

Lemma capacity_of_vehicle (soft_bound : Z) (v : nat) (cap : Z) :
  nth_error
    (vehicle_capacities (capacity_dimension (formulation lib a soft_bound))) v
  = Some cap ->
  cap = vehicle_cap a.
Proof.
  intros H. apply nth_error_In in H. simpl in H. unfold VEHICLES in H.
  apply in_map_iff in H. destruct H as [c [<- H]].
  apply in_map_iff in H. now destruct H as [k [<- _]].
Qed.

(** Along a route, the demand of the stops recorded before the last one is
    what the Capacity dimension has accumulated on arrival at the end. *)
Lemma demand_accumulates (cumul : Z -> Z) (v cap prev : Z) :
  (forall i,
     on_route (model lib a) assignment v i ->
     0 <= cumul i <= cap
     /\ (IsEnd (model lib a) i = false ->
         exists t slack,
           demand_callback lib a i = Ok t
           /\ 0 <= slack <= 0
           /\ cumul (NextValue assignment i) = cumul i + t + slack)) ->
  forall i ps,
    path (model lib a) assignment i ps ->
    on_route (model lib a) assignment v i ->
    forall stops,
      Forall2 (stop_at lib a prev) ps stops ->
      cumul i + total_demand (removelast stops) <= cap.
Proof.
  intros Hdim. induction 1 as [i He | i ps He Hp IH]; intros Hon stops Hf.
  - inversion Hf as [|p s ps' stops' _ Hnil]; subst. inversion Hnil; subst.
    simpl. destruct (Hdim i Hon) as [Hb _]. lia.
  - inversion Hf as [|p s ps' stops' Hs Hrest]; subst.
    destruct (path_head Hp) as [rest ->].
    inversion Hrest as [|p' s' ps'' stops'' _ _]; subst.
    rewrite removelast_cons2, total_demand_cons.
    destruct (Hdim i Hon) as [_ Hstep].
    destruct (Hstep He) as [t [slack [Ht [Hsl Hc]]]].
    destruct Hs as [Hidx [_ [Hdem _]]].
    unfold demand_callback in Ht. rewrite <- Hidx, Hdem in Ht.
    injection Ht as <-.
    assert (Hon' : on_route (model lib a) assignment v
                            (NextValue assignment i))
      by now constructor.
    specialize (IH Hon' _ Hrest). lia.
Qed.

(** C6: in a call that returns a solution from an assignment satisfying
    the bounds of the Capacity dimension, the demand of every route, summed
    over its stops without the trailing depot stop, is at most the vehicle
    capacity. *)
Theorem route_demand_within_capacity (fuel : nat) (soft_bound : Z)
    (sol : list (list (Stop coord))) :
  search lib a = Ok (Some assignment) ->
  satisfies_dimension (model lib a) assignment
                      (capacity_dimension (formulation lib a soft_bound)) ->
  solve lib a fuel = Ok (Some sol) ->
  Forall (fun route => total_demand (removelast route) <= vehicle_cap a) sol.
Proof.
  intros Hs [cumul Hdim] Hsol.
  pose proof (@solve_Ok _ _ _ _ fuel sol Hs Hsol) as Hf. clear Hsol Hs.
  pose proof (@used_in_fleet _ lib a assignment
                (range (vehicles (model lib a)))) as Hin.
  induction Hf as [|v route vs routes Hw _ IH]; [constructor|].
  constructor; [|apply IH; intros w Hw'; apply (Hin w); now right].
  destruct (Hdim v (proj1 (Hin v (or_introl eq_refl))))
    as [cap [Hcap [H0 Hall]]].
  apply capacity_of_vehicle in Hcap. subst cap.
  apply walk_Ok in Hw. destruct Hw as [ps [stops [Hp [Hst ->]]]]. simpl.
  specialize (H0 eq_refl).
  pose proof (@demand_accumulates cumul v (vehicle_cap a) _ Hall _ _ Hp
                (on_route_start _ _ _) _ Hst) as Hle.
  rewrite H0 in Hle. exact Hle.
Qed.

End Capacity.

(** ** Unused vehicles *)

Section Unused.

Variable coord : Type.
Variable lib : Ortools.
Variable a : Args coord.
Variable assignment : Assignment.

Lemma unused_not_listed (v : Z) :
  IsEnd (model lib a) (End (model lib a) v) = true ->
  NextValue assignment (Start (model lib a) v) = End (model lib a) v ->
  ~ In v (filter (used lib a assignment) (fleet lib a)).
Proof.
  intros He Hn Hin. apply used_in_fleet in Hin. destruct Hin as [_ Hu].
  unfold used in Hu. rewrite Hn, He in Hu. discriminate.
Qed.

(** A used vehicle's route has a start, at least one stop after it, and an
    end. *)
Lemma used_route_length (fuel : nat) (v : Z) (route : list (Stop coord)) :
  IsEnd (model lib a) (Start (model lib a) v) = false ->
  used lib a assignment v = true ->
  route_of lib a assignment fuel v = Ok route ->
  (3 <= length route)%nat.
Proof.
  intros Hs Hu Hw. apply walk_Ok in Hw.
  destruct Hw as [ps [stops [Hp [Hf ->]]]]. simpl.
  rewrite <- (Forall2_length Hf).
  unfold used in Hu. apply negb_true_iff in Hu.
  inversion Hp as [i He | i ps1 He Hp1]; subst; [congruence|].
  inversion Hp1 as [i He1 | i ps2 He1 Hp2]; subst; [congruence|].
  destruct (path_head Hp2) as [rest ->]. simpl. lia.
Qed.

(** Distinct first nodes, none of them the depot, leave room for at most
    [NUM_NODES - 1] used vehicles. *)
Lemma used_vehicles_bounded :
  0 <= depot_index a < NUM_NODES a ->
  (forall v, In v (fleet lib a) -> used lib a assignment v = true ->
             0 <= first_node lib a assignment v < NUM_NODES a
             /\ first_node lib a assignment v <> depot_index a) ->
  (forall v w, In v (fleet lib a) -> In w (fleet lib a) ->
               used lib a assignment v = true ->
               used lib a assignment w = true ->
               first_node lib a assignment v = first_node lib a assignment w ->
               v = w) ->
  len (filter (used lib a assignment) (fleet lib a)) <= NUM_NODES a - 1.
Proof.
  intros Hdepot Hnode Hinj.
  set (us := filter (used lib a assignment) (fleet lib a)).
  pose proof (@used_in_fleet _ lib a assignment (fleet lib a)) as Hus.
  fold us in Hus.
  assert (Hnd : NoDup (depot_index a
                       :: map (first_node lib a assignment) us)).
  { constructor.
    - intros Hin. apply in_map_iff in Hin. destruct Hin as [v [Hv Hin]].
      destruct (Hus v Hin) as [Hf Hu]. destruct (Hnode v Hf Hu) as [_ Hne].
      now apply Hne.
    - apply Injective_map_NoDup_in.
      + intros v w Hv Hw. destruct (Hus v Hv), (Hus w Hw). now apply Hinj.
      + apply NoDup_filter, range_NoDup. }
  assert (Hincl : incl (depot_index a
                        :: map (first_node lib a assignment) us)
                       (range (NUM_NODES a))).
  { intros x [<- | Hx]; apply in_range; [exact Hdepot|].
    apply in_map_iff in Hx. destruct Hx as [v [<- Hin]].
    destruct (Hus v Hin) as [Hf Hu]. now apply Hnode. }
  pose proof (NoDup_incl_length Hnd Hincl) as Hlen.
  simpl in Hlen. rewrite length_map in Hlen.
  assert (Hr : len (range (NUM_NODES a)) = NUM_NODES a)
    by (apply length_range; lia).
  unfold len in *. lia.
Qed.

(** C7: a vehicle whose start is followed directly by its end contributes
    no route: the routes of the solution are, in order, those of the
    vehicles whose start is followed by something other than an end, each
    with at least three stops.  When moreover the first nodes of the used
    vehicles are distinct non-depot nodes, the solution has at most as many
    routes as there are non-depot nodes. *)
Theorem unused_vehicles_emit_no_route (fuel : nat)
    (sol : list (list (Stop coord))) :
  (forall v, In v (fleet lib a) ->
             IsEnd (model lib a) (Start (model lib a) v) = false
             /\ IsEnd (model lib a) (End (model lib a) v) = true) ->
  0 <= depot_index a < NUM_NODES a ->
  (forall v, In v (fleet lib a) -> used lib a assignment v = true ->
             0 <= first_node lib a assignment v < NUM_NODES a
             /\ first_node lib a assignment v <> depot_index a) ->
  (forall v w, In v (fleet lib a) -> In w (fleet lib a) ->
               used lib a assignment v = true ->
               used lib a assignment w = true ->
               first_node lib a assignment v = first_node lib a assignment w ->
               v = w) ->
  search lib a = Ok (Some assignment) ->
  solve lib a fuel = Ok (Some sol) ->
  Forall2 (fun v route => route_of lib a assignment fuel v = Ok route)
          (filter (used lib a assignment) (fleet lib a)) sol
  /\ (forall v, In v (fleet lib a) ->
                NextValue assignment (Start (model lib a) v)
                = End (model lib a) v ->
                ~ In v (filter (used lib a assignment) (fleet lib a)))
  /\ Forall (fun route => (3 <= length route)%nat) sol
  /\ len sol <= NUM_NODES a - 1.
Proof.
  intros Hends Hdepot Hnode Hinj Hs Hsol.
  pose proof (@solve_Ok _ _ _ _ fuel sol Hs Hsol) as Hf.
  fold (fleet lib a) in Hf.
  split; [exact Hf|]. split; [|split].
  - intros v Hv. apply unused_not_listed. exact (proj2 (Hends v Hv)).
  - clear Hsol Hs.
    pose proof (@used_in_fleet _ lib a assignment (fleet lib a)) as Hus.
    induction Hf as [|v route vs routes Hw _ IH]; [constructor|].
    constructor; [|apply IH; intros w Hw'; apply (Hus w); now right].
    destruct (Hus v (or_introl eq_refl)) as [Hv Hu].
    eapply used_route_length;
      [exact (proj1 (Hends v Hv)) | exact Hu | exact Hw].
  - unfold len. rewrite <- (Forall2_length Hf).
    now apply used_vehicles_bounded.
Qed.

End Unused.

(** ** The properties on sample calls *)

Lemma one_tour_on_route (i : Z) :
  on_route (model Sample.one_tour_library Sample.three_args)
           (Sample.table Sample.one_tour) 0 i ->
  i = 0 \/ i = 1 \/ i = 2 \/ i = 3.
Proof.
  induction 1 as [|i _ IH He].
  - now left.
  - destruct IH as [-> | [-> | [-> | ->]]]; vm_compute in He |- *;
      try discriminate; auto.
Qed.

(** The tour keeps the load at 0, 0, 4 and 10 on positions 0 to 3, within
    the capacity of 26. *)
Lemma one_tour_within_capacity :
  satisfies_dimension
    (model Sample.one_tour_library Sample.three_args)
    (Sample.table Sample.one_tour)
    (capacity_dimension
       (formulation Sample.one_tour_library Sample.three_args 1000)).
Proof.
  exists (fun i => nth (Z.to_nat i) [0; 0; 4; 10] 0).
  intros v Hv. vm_compute in Hv. destruct Hv as [<- | []].
  exists 26. split; [reflexivity|]. split; [reflexivity|].
  intros i Hi. apply one_tour_on_route in Hi.
  destruct Hi as [-> | [-> | [-> | ->]]];
    (split; [vm_compute; split; discriminate|]); intros He;
    try (vm_compute in He; discriminate He).
  - exists 0, 0. repeat split; try reflexivity; lia.
  - exists 4, 0. repeat split; try reflexivity; lia.
  - exists 6, 0. repeat split; try reflexivity; lia.
Qed.

(** C4 on a call whose search finds nothing. *)
Lemma no_assignment_gives_None_witness :
  solve (Sample.library None) Sample.three_args 0 = Ok None.
Proof.
  apply (@no_assignment_gives_None Z (Sample.library None)
           Sample.three_args 0).
  reflexivity.
Defined.

(** C5 on the tour depot, 1, 2, depot. *)
Lemma routes_begin_and_end_at_depot_witness :
  Forall (fun route => begins_at route 0 /\ ends_at route 0)
         Sample.one_tour_solution.
Proof.
  apply (@routes_begin_and_end_at_depot Z Sample.one_tour_library
           Sample.three_args) with (fuel := 4%nat).
  - intros v Hv. vm_compute in Hv. destruct Hv as [<- | []]. reflexivity.
  - intros i Hi. simpl in *. apply Z.leb_le in Hi.
    change (NUM_NODES Sample.three_args) with 3.
    replace (i <? 3) with false by (symmetry; apply Z.ltb_ge; lia).
    now rewrite andb_false_r.
  - reflexivity.
Defined.

(** C6 on the tour depot, 1, 2, depot: demands 0, 4 and 6 against a
    capacity of 26. *)
Lemma route_demand_within_capacity_witness :
  Forall (fun route => total_demand (removelast route) <= 26)
         Sample.one_tour_solution.
Proof.
  apply (@route_demand_within_capacity Z Sample.one_tour_library
           Sample.three_args (Sample.table Sample.one_tour) 4 1000
           Sample.one_tour_solution).
  - reflexivity.
  - exact one_tour_within_capacity.
  - reflexivity.
Defined.

(** C7 on two vehicles and one customer: one route. *)
Lemma unused_vehicles_emit_no_route_witness :
  len [[ STOP 0 0 0 0 0; STOP 1 3 4 3 5; STOP 0 0 0 0 0 ]]
  <= NUM_NODES Sample.spare_vehicle_args - 1.
Proof.
  apply (@unused_vehicles_emit_no_route Z
           (Sample.library (Some Sample.spare_vehicle_plan))
           Sample.spare_vehicle_args
           (Sample.table Sample.spare_vehicle_plan) 3).
  - intros v Hv. vm_compute in Hv.
    destruct Hv as [<- | [<- | []]]; split; reflexivity.
  - vm_compute. split; [discriminate | reflexivity].
  - intros v Hv Hu. vm_compute in Hv. destruct Hv as [<- | [<- | []]].
    + vm_compute. repeat split; discriminate.
    + vm_compute in Hu. discriminate Hu.
  - intros v w Hv Hw Hu Hu' _. vm_compute in Hv, Hw.
    destruct Hv as [<- | [<- | []]]; destruct Hw as [<- | [<- | []]];
      try reflexivity; vm_compute in Hu, Hu'; discriminate.
  - reflexivity.
  - reflexivity.
Defined.

(** C8 on the demand vectors [4, 6] and [0, 4, 6] over three nodes. *)
Lemma demand_padding_idempotent_witness :
  solve Sample.one_tour_library (with_demand [4; 6] Sample.three_args) 4
  = solve Sample.one_tour_library
          (with_demand [0; 4; 6] Sample.three_args) 4.
Proof.
  apply (@demand_padding_idempotent Z Sample.one_tour_library
           Sample.three_args [4; 6] 4).
  reflexivity.
Defined.

(** * Further properties *)

(** ** More on [get_dropped_nodes] *)

Section DroppedMore.

Variable model : RoutingModel.
Variable assignment : Assignment.

(** The result is empty exactly when no position below [model.Size()] is its
    own successor; in particular for a model without positions. *)
Theorem get_dropped_nodes_empty_iff :
  get_dropped_nodes model assignment = []
  <-> forall idx, 0 <= idx < Size model -> NextValue assignment idx <> idx.
Proof.
  rewrite get_dropped_nodes_filter. split.
  - intros Hnil idx Hidx Hself.
    assert (Hin : In idx (filter (is_dropped assignment)
                                 (range (Size model)))).
    { apply filter_In. split; [now apply in_range|].
      unfold is_dropped. now apply Z.eqb_eq. }
    rewrite Hnil in Hin. exact Hin.
  - intros Hnone.
    destruct (filter (is_dropped assignment) (range (Size model)))
      as [|idx rest] eqn:Hf; [reflexivity|].
    assert (Hin : In idx (filter (is_dropped assignment)
                                 (range (Size model))))
      by (rewrite Hf; now left).
    apply filter_In in Hin. destruct Hin as [Hr Hd].
    apply in_range in Hr. unfold is_dropped in Hd. apply Z.eqb_eq in Hd.
    now destruct (Hnone idx Hr).
Qed.

(** No position is reported twice, and no more positions are reported than
    the model has. *)
Theorem get_dropped_nodes_bounded :
  NoDup (get_dropped_nodes model assignment)
  /\ len (get_dropped_nodes model assignment) <= Z.max 0 (Size model).
Proof.
  rewrite get_dropped_nodes_filter. split.
  - apply NoDup_filter, range_NoDup.
  - unfold len.
    pose proof (filter_length_le (is_dropped assignment)
                                 (range (Size model))) as Hle.
    unfold range in *. rewrite length_map, length_seq in Hle. lia.
Qed.

End DroppedMore.

(** ** More on the resolution of the arguments *)

Section ResolutionMore.

Variable coord : Type.
Variable lib : Ortools.
Variable a : Args coord.

(** With the vehicle count left out (or 0) and a demand vector of length
    [N] or [N - 1] over [N >= 1] nodes, the padded demand has one entry per
    node and there is one vehicle per node other than the depot. *)
Theorem default_vehicle_count :
  truthy (num_vehicles a) = false ->
  1 <= NUM_NODES a ->
  len (demand_arg a) = NUM_NODES a - 1 \/ len (demand_arg a) = NUM_NODES a ->
  len (DEMAND a) = NUM_NODES a
  /\ NUM_VEHICLES a = NUM_NODES a - 1
  /\ len (VEHICLES a) = NUM_NODES a - 1.
Proof.
  intros Hnv HN Hlen.
  assert (HD : len (DEMAND a) = NUM_NODES a).
  { unfold DEMAND, NUM_NODES in *.
    destruct (len (distance_matrix a) - 1 =? len (demand_arg a)) eqn:He.
    - apply Z.eqb_eq in He. unfold len in *. simpl length. lia.
    - apply Z.eqb_neq in He. lia. }
  assert (HV : NUM_VEHICLES a = NUM_NODES a - 1).
  { unfold NUM_VEHICLES. rewrite Hnv. simpl.
    unfold len, tail in *. destruct (DEMAND a); simpl in *; lia. }
  split; [exact HD|]. split; [exact HV|].
  unfold VEHICLES, len. rewrite length_map. fold (len (range (NUM_VEHICLES a))).
  rewrite length_range; lia.
Qed.

(** With the soft bound left out (or 0) and a hard bound below [2^51] in
    absolute value, the search receives three quarters of the hard bound,
    truncated towards zero, as the soft bound of every vehicle's end. *)
Theorem default_soft_bound :
  truthy (soft_distance_constrint_int a) = false ->
  bit_length (distance_constraint_int a) <= 51 ->
  let soft := Z.quot (3 * distance_constraint_int a) 4 in
  search lib a = Ok (SolveWithParameters lib (formulation lib a soft))
  /\ distance_soft_upper_bounds (formulation lib a soft)
     = map (fun v => {| position := End (model lib a) v;
                        upper_bound := soft;
                        coefficient := soft_distance_penalty a |})
           (range (GetNumberOfVehicles (manager lib a)))
  /\ (0 <= distance_constraint_int a ->
      4 * soft <= 3 * distance_constraint_int a < 4 * soft + 4).
Proof.
  intros Hs Hb soft. split; [|split].
  - unfold search, SOFT_DISTANCE_CONSTRAINT, DISTANCE_CONSTRAINT.
    rewrite Hs. simpl. now rewrite int_mul_075_small.
  - reflexivity.
  - intros H0. unfold soft. rewrite Z.quot_div_nonneg by lia.
    pose proof (Z.div_mod (3 * distance_constraint_int a) 4) as Hdm.
    pose proof (Z.mod_pos_bound (3 * distance_constraint_int a) 4) as Hm.
    lia.
Qed.

End ResolutionMore.

(** Rounding to a double does not bring a number of at least [2^1024] below
    [2^1024]. *)
Lemma round53_large (d : Z) :
  2 ^ 1024 <= Z.abs d -> 1024 < bit_length (round53 d).
Proof.
  intros Hd.
  assert (Hpos : 0 < Z.abs d)
    by (pose proof (Z.pow_pos_nonneg 2 1024); lia).
  assert (Hlog : 1024 <= Z.log2 (Z.abs d))
    by (apply Z.log2_le_pow2; [exact Hpos | exact Hd]).
  destruct (Z.log2_spec (Z.abs d) Hpos) as [Hlo _].
  assert (Hbl : bit_length d = Z.log2 (Z.abs d) + 1).
  { unfold bit_length.
    replace (d =? 0) with false by (symmetry; apply Z.eqb_neq; lia).
    reflexivity. }
  set (k := bit_length d - 53).
  assert (Hk : 0 < k) by (unfold k; lia).
  assert (Hsplit : 2 ^ Z.log2 (Z.abs d) = 2 ^ 52 * 2 ^ k).
  { rewrite <- Z.pow_add_r by lia. f_equal. unfold k. lia. }
  assert (H2k : 0 < 2 ^ k) by (apply Z.pow_pos_nonneg; lia).
  assert (Hq : 2 ^ 52 <= Z.shiftr (Z.abs d) k).
  { rewrite Z.shiftr_div_pow2 by lia.
    apply Z.div_le_lower_bound; [exact H2k|]. rewrite Z.mul_comm. lia. }
  assert (Hr : 2 ^ Z.log2 (Z.abs d) <= round_half_even (Z.abs d) k).
  { unfold round_half_even.
    replace (k <=? 0) with false by (symmetry; apply Z.leb_gt; lia).
    set (q := Z.shiftr (Z.abs d) k) in *.
    set (q' := if _ <? _ then q else _).
    assert (Hq' : q <= q').
    { unfold q'. destruct (_ <? _); [lia|].
      destruct (_ <? _); [lia|]. destruct (Z.even q); lia. }
    rewrite Z.shiftl_mul_pow2 by lia. rewrite Hsplit.
    apply Z.mul_le_mono_nonneg_r; lia. }
  fold k in Hr |- *.
  assert (Habs : Z.abs (round53 d) = round_half_even (Z.abs d) k).
  { unfold round53. fold k. rewrite Z.abs_mul.
    assert (Z.abs (Z.sgn d) = 1) by lia.
    pose proof (Z.pow_pos_nonneg 2 (Z.log2 (Z.abs d))). lia. }
  assert (Hrpos : 0 < Z.abs (round53 d)).
  { rewrite Habs. pose proof (Z.pow_pos_nonneg 2 (Z.log2 (Z.abs d))).
    pose proof (Z.log2_nonneg (Z.abs d)). lia. }
  unfold bit_length at 1.
  replace (round53 d =? 0) with false by (symmetry; apply Z.eqb_neq; lia).
  assert (Z.log2 (Z.abs d) <= Z.log2 (Z.abs (round53 d))); [|lia].
  apply Z.log2_le_pow2; [exact Hrpos|]. rewrite Habs. exact Hr.
Qed.

Section Overflow.

Variable coord : Type.
Variable lib : Ortools.
Variable a : Args coord.

(** With the soft bound left out (or 0) and a hard bound of [2^1024] or
    more in absolute value, [solve] raises [OverflowError] before the
    library is asked for anything. *)
Theorem huge_hard_bound_overflows (fuel : nat) :
  truthy (soft_distance_constrint_int a) = false ->
  2 ^ 1024 <= Z.abs (distance_constraint_int a) ->
  search lib a = Raise OverflowError
  /\ solve lib a fuel = Raise OverflowError.
Proof.
  intros Hs Hd.
  assert (Hsearch : search lib a = Raise OverflowError).
  { unfold search, SOFT_DISTANCE_CONSTRAINT, DISTANCE_CONSTRAINT.
    rewrite Hs. simpl. unfold int_mul_075.
    apply round53_large in Hd. apply Z.ltb_lt in Hd. now rewrite Hd. }
  split; [exact Hsearch|]. unfold solve. now rewrite Hsearch.
Qed.

End Overflow.

(** ** More on decoding *)

Lemma Forall2_In_left (A B : Type) (R : A -> B -> Prop) (l : list A)
    (l' : list B) (x : A) :
  Forall2 R l l' -> In x l -> exists y, In y l' /\ R x y.
Proof.
  induction 1 as [|x0 y0 l l' Hxy _ IH]; intros Hin; [destruct Hin|].
  destruct Hin as [<- | Hin].
  - exists y0. split; [now left | exact Hxy].
  - destruct (IH Hin) as [y [Hy Hr]]. exists y. split; [now right | exact Hr].
Qed.

Section DecodingMore.

Variable coord : Type.
Variable lib : Ortools.
Variable a : Args coord.
Variable assignment : Assignment.

(** The routes of a solution are those of the used vehicles of the fleet,
    all of them and no other, taken in increasing vehicle number, so there
    are at most as many routes as vehicles. *)
Theorem routes_follow_vehicle_order (fuel : nat)
    (sol : list (list (Stop coord))) :
  search lib a = Ok (Some assignment) ->
  solve lib a fuel = Ok (Some sol) ->
  Forall2 (fun v route => route_of lib a assignment fuel v = Ok route)
          (filter (used lib a assignment) (fleet lib a)) sol
  /\ (forall v,
        In v (filter (used lib a assignment) (fleet lib a))
        <-> 0 <= v < vehicles (model lib a)
            /\ used lib a assignment v = true)
  /\ StronglySorted Z.lt (filter (used lib a assignment) (fleet lib a))
  /\ len sol = len (filter (used lib a assignment) (fleet lib a))
  /\ len sol <= Z.max 0 (vehicles (model lib a)).
Proof.
  intros Hs Hsol.
  pose proof (@solve_Ok _ _ _ _ fuel sol Hs Hsol) as Hroutes.
  fold (fleet lib a) in Hroutes.
  assert (Hlen : len sol = len (filter (used lib a assignment) (fleet lib a)))
    by (unfold len; now rewrite (Forall2_length Hroutes)).
  split; [exact Hroutes|]. split; [|split; [|split]].
  - intros v. rewrite filter_In. unfold fleet. now rewrite in_range.
  - apply filter_sorted, range_sorted.
  - exact Hlen.
  - rewrite Hlen. unfold len.
    pose proof (filter_length_le (used lib a assignment) (fleet lib a))
      as Hle.
    unfold fleet, range in *. rewrite length_map, length_seq in Hle. lia.
Qed.

Lemma solve_stops_data (fuel : nat) (sol : list (list (Stop coord))) :
  solve lib a fuel = Ok (Some sol) ->
  Forall
    (Forall (fun s =>
               (exists node,
                  index (nodes a) (idx s) = Ok node
                  /\ lat s = Node.lat node /\ lon s = Node.lon node)
               /\ index (DEMAND a) (idx s) = Ok (demand s)))
    sol.
Proof.
  intros Hsol. destruct (solve_Some_inv _ _ _ Hsol) as [asg Hs].
  pose proof (@solve_Ok _ _ _ _ fuel sol Hs Hsol) as Hf. clear Hsol Hs.
  induction Hf as [|v route vs routes Hw _ IH]; [constructor|].
  constructor; [|exact IH].
  apply walk_Ok in Hw. destruct Hw as [ps [stops [_ [Hst ->]]]]. simpl.
  clear -Hst. induction Hst as [|p s ps stops Hps _ IHs]; [constructor|].
  constructor; [|exact IHs].
  destruct Hps as [_ [Hn [Hd _]]]. now split.
Qed.

(** Every stop of a solution carries the coordinates of [nodes] and the
    padded demand found at the stop's own node index. *)
Theorem stops_record_node_data (fuel : nat)
    (sol : list (list (Stop coord))) :
  solve lib a fuel = Ok (Some sol) ->
  Forall
    (Forall (fun s =>
               (exists node,
                  index (nodes a) (idx s) = Ok node
                  /\ lat s = Node.lat node /\ lon s = Node.lon node)
               /\ index (DEMAND a) (idx s) = Ok (demand s)))
    sol.
Proof.
  intros Hsol. destruct (solve_Some_inv _ _ _ Hsol) as [asg Hs].
  pose proof (@solve_Ok _ _ _ _ fuel sol Hs Hsol) as Hroutes.
  clear Hsol Hs.
  induction Hroutes as [|v route vs routes Hw _ IH]; [constructor|].
  constructor; [|exact IH].
  apply walk_Ok in Hw. destruct Hw as [ps [stops [_ [Hst ->]]]]. simpl.
  clear -Hst. induction Hst as [|p s ps stops Hps _ IHs]; [constructor|].
  constructor; [|exact IHs].
  destruct Hps as [_ [Hnode [Hdem _]]]. split; [exact Hnode | exact Hdem].
Qed.

(** With a demand vector that leaves the depot out, every stop at node 0
    has demand 0. *)
Theorem padded_depot_has_no_demand (fuel : nat)
    (sol : list (list (Stop coord))) :
  len (distance_matrix a) - 1 = len (demand_arg a) ->
  solve lib a fuel = Ok (Some sol) ->
  Forall (Forall (fun s => idx s = 0 -> demand s = 0)) sol.
Proof.
  intros Hlen Hsol. pose proof (solve_stops_data fuel Hsol) as Hall.
  assert (HD : DEMAND a = 0 :: demand_arg a).
  { unfold DEMAND. apply Z.eqb_eq in Hlen. now rewrite Hlen. }
  eapply Forall_impl; [|exact Hall]. intros route Hroute.
  eapply Forall_impl; [|exact Hroute]. intros s [_ Hd] H0.
  rewrite HD, H0 in Hd. now injection Hd.
Qed.

Lemma decode_all_unused (fuel : nat) (route_numbers : list Z) :
  (forall v, In v route_numbers -> used lib a assignment v = false) ->
  forall solution,
    decode lib a assignment fuel route_numbers solution = Ok solution.
Proof.
  induction route_numbers as [|v rest IH]; intros Hun solution; simpl;
    [reflexivity|].
  pose proof (Hun v (or_introl eq_refl)) as Hv. unfold used in Hv.
  apply negb_false_iff in Hv. rewrite Hv.
  apply IH. intros w Hw. apply Hun. now right.
Qed.

(** When no vehicle is used, the solution is the empty list, which is not
    [None], whatever the step budget. *)
Theorem all_unused_gives_empty_solution (fuel : nat) :
  search lib a = Ok (Some assignment) ->
  (forall v, In v (fleet lib a) -> used lib a assignment v = false) ->
  solve lib a fuel = Ok (Some []).
Proof.
  intros Hs Hun. unfold solve. rewrite Hs. simpl.
  fold (fleet lib a). now rewrite decode_all_unused.
Qed.

Lemma decode_bad_start (fuel : nat) (route_numbers : list Z) :
  (forall v, In v route_numbers ->
             index (nodes a)
                   (IndexToNode (manager lib a) (Start (model lib a) v))
             = Raise IndexError) ->
  (exists v, In v route_numbers /\ used lib a assignment v = true) ->
  forall solution,
    decode lib a assignment (S fuel) route_numbers solution
    = Raise IndexError.
Proof.
  induction route_numbers as [|v rest IH]; intros Hbad [w [Hw Hu]] solution.
  - destruct Hw.
  - simpl decode.
    destruct (IsEnd (model lib a)
                    (NextValue assignment (Start (model lib a) v))) eqn:He.
    + apply IH.
      * intros x Hx. apply Hbad. now right.
      * destruct Hw as [<- | Hw]; [|now exists w].
        unfold used in Hu. rewrite He in Hu. discriminate.
    + simpl. now rewrite (Hbad v (or_introl eq_refl)).
Qed.

(** When the node of every vehicle's start position is not a valid
    subscript of [nodes] (an empty [nodes], or a depot index beyond it) and
    some vehicle is used, [solve] raises [IndexError] in the first iteration
    of the first used vehicle. *)
Theorem missing_depot_coordinates_raise (fuel : nat) :
  search lib a = Ok (Some assignment) ->
  (forall v, In v (fleet lib a) ->
             index (nodes a)
                   (IndexToNode (manager lib a) (Start (model lib a) v))
             = Raise IndexError) ->
  (exists v, In v (fleet lib a) /\ used lib a assignment v = true) ->
  solve lib a (S fuel) = Raise IndexError.
Proof.
  intros Hs Hbad Hused. unfold solve. rewrite Hs. simpl bind.
  fold (fleet lib a). now rewrite decode_bad_start.
Qed.

Lemma path_not_from_self (i : Z) :
  NextValue assignment i = i ->
  IsEnd (model lib a) i = false ->
  forall ps, ~ path (model lib a) assignment i ps.
Proof.
  intros Hself He ps. induction ps as [|p ps IH]; intros Hp;
    inversion Hp as [j Hj | j ps' Hj Hp']; subst; [congruence|].
  rewrite Hself in Hp'. now apply IH.
Qed.

Lemma path_from_route_position (v i : Z) (ps : list Z) :
  path (model lib a) assignment (Start (model lib a) v) ps ->
  on_route (model lib a) assignment v i ->
  exists ps', path (model lib a) assignment i ps'.
Proof.
  intros Hp. induction 1 as [|i Hon [ps' Hp'] He]; [now exists ps|].
  inversion Hp' as [j Hj | j ps'' Hj Hp'']; subst; [congruence|].
  now exists ps''.
Qed.

(** A position that [get_dropped_nodes] reports and that lies on the route
    of a used vehicle keeps [solve] from returning a solution: the loop
    comes back to that position for ever, unless a subscript fails first. *)
Theorem dropped_position_on_route_never_decodes (v i : Z) :
  search lib a = Ok (Some assignment) ->
  In v (fleet lib a) ->
  used lib a assignment v = true ->
  on_route (model lib a) assignment v i ->
  In i (get_dropped_nodes (model lib a) assignment) ->
  IsEnd (model lib a) i = false ->
  forall fuel sol, solve lib a fuel <> Ok (Some sol).
Proof.
  intros Hs Hv Hu Hon Hdrop He fuel sol Hsol.
  pose proof (@solve_Ok _ _ _ _ fuel sol Hs Hsol) as Hf.
  assert (Hin : In v (filter (used lib a assignment) (fleet lib a)))
    by (apply filter_In; now split).
  destruct (@Forall2_In_left _ _ _ _ _ v Hf Hin) as [route [_ Hw]].
  apply walk_Ok in Hw. destruct Hw as [ps [stops [Hp _]]].
  destruct (path_from_route_position Hp Hon) as [ps' Hp'].
  rewrite get_dropped_nodes_filter in Hdrop. apply filter_In in Hdrop.
  destruct Hdrop as [_ Hself]. unfold is_dropped in Hself.
  apply Z.eqb_eq in Hself.
  exact (path_not_from_self Hself He Hp').
Qed.

End DecodingMore.

(** ** The Distance dimension *)

Section Distance.

Variable coord : Type.
Variable lib : Ortools.
Variable a : Args coord.
Variable assignment : Assignment.

Lemma distance_of_vehicle (soft_bound : Z) (v : nat) (cap : Z) :
  nth_error
    (vehicle_capacities (distance_dimension (formulation lib a soft_bound))) v
  = Some cap ->
  cap = distance_constraint_int a.
Proof.
  intros H. apply nth_error_In in H. simpl in H.
  apply in_map_iff in H. now destruct H as [k [<- _]].
Qed.

(** Along a route, the distance travelled between the nodes of consecutive
    stops is what the Distance dimension has accumulated on arrival at the
    end. *)
Lemma distance_accumulates (cumul : Z -> Z) (v cap prev : Z) :
  (forall i,
     on_route (model lib a) assignment v i ->
     0 <= cumul i <= cap
     /\ (IsEnd (model lib a) i = false ->
         exists t slack,
           matrix_callback lib a i (NextValue assignment i) = Ok t
           /\ 0 <= slack <= 0
           /\ cumul (NextValue assignment i) = cumul i + t + slack)) ->
  forall i ps,
    path (model lib a) assignment i ps ->
    on_route (model lib a) assignment v i ->
    forall stops,
      Forall2 (stop_at lib a prev) ps stops ->
      exists total,
        tour_length a (IndexToNode (manager lib a) i)
                    (map (@idx coord) (List.tl stops))
        = Ok total
        /\ cumul i + total <= cap.
Proof.
  intros Hdim. induction 1 as [i He | i ps He Hp IH]; intros Hon stops Hf.
  - inversion Hf as [|p s ps' stops' _ Hnil]; subst. inversion Hnil; subst.
    exists 0. split; [reflexivity|].
    destruct (Hdim i Hon) as [Hb _]. lia.
  - inversion Hf as [|p s ps' stops' Hs Hrest]; subst.
    destruct (path_head Hp) as [rest ->].
    inversion Hrest as [|p' s' ps'' stops'' Hs' _]; subst.
    destruct (Hdim i Hon) as [_ Hstep].
    destruct (Hstep He) as [t [slack [Ht [Hsl Hc]]]].
    assert (Hon' : on_route (model lib a) assignment v
                            (NextValue assignment i))
      by now constructor.
    destruct (IH Hon' _ Hrest) as [total [Htl Hle]].
    destruct Hs' as [Hidx' _].
    exists (t + total). split; [|lia].
    simpl List.tl in *. simpl map. simpl tour_length.
    unfold matrix_callback in Ht. rewrite Hidx', Ht. simpl.
    rewrite Htl. reflexivity.
Qed.

(** In a call that returns a solution from an assignment satisfying the
    bounds of the Distance dimension, the distance travelled along every
    route, summed over the matrix entries between consecutive stops, is at
    most the hard distance bound. *)
Theorem route_length_within_hard_bound (fuel : nat) (soft_bound : Z)
    (sol : list (list (Stop coord))) :
  search lib a = Ok (Some assignment) ->
  satisfies_dimension (model lib a) assignment
                      (distance_dimension (formulation lib a soft_bound)) ->
  solve lib a fuel = Ok (Some sol) ->
  Forall (fun route =>
            exists total,
              route_length a route = Ok total
              /\ total <= distance_constraint_int a)
         sol.
Proof.
  intros Hs [cumul Hdim] Hsol.
  pose proof (@solve_Ok _ _ _ _ fuel sol Hs Hsol) as Hf. clear Hsol Hs.
  pose proof (@used_in_fleet _ lib a assignment
                (range (vehicles (model lib a)))) as Hin.
  induction Hf as [|v route vs routes Hw _ IH]; [constructor|].
  constructor; [|apply IH; intros w Hw'; apply (Hin w); now right].
  destruct (Hdim v (proj1 (Hin v (or_introl eq_refl))))
    as [cap [Hcap [H0 Hall]]].
  apply distance_of_vehicle in Hcap. subst cap.
  apply walk_Ok in Hw. destruct Hw as [ps [stops [Hp [Hst ->]]]]. simpl.
  specialize (H0 eq_refl).
  destruct (@distance_accumulates cumul v (distance_constraint_int a) _
              Hall _ _ Hp (on_route_start _ _ _) _ Hst)
    as [total [Htl Hle]].
  exists total. split; [|lia].
  destruct (path_head Hp) as [rest ->].
  inversion Hst as [|p s ps' stops' Hs0 _]; subst.
  unfold route_length. simpl map. simpl List.tl in Htl.
  destruct Hs0 as [-> _]. exact Htl.
Qed.

End Distance.

(** ** [get_solution_str] *)

Lemma append_assoc (s1 s2 s3 : string) :
  ((s1 ++ s2) ++ s3)%string = (s1 ++ (s2 ++ s3))%string.
Proof. induction s1 as [|c s1 IH]; simpl; [reflexivity | now rewrite IH]. Qed.

Lemma append_empty_r (s : string) : (s ++ "")%string = s.
Proof. induction s as [|c s IH]; simpl; [reflexivity | now rewrite IH]. Qed.


Section PrintingFacts.

Variable coord : Type.
Variable repr_coord : coord -> string.

Lemma append_route_text (_str : string) (ir : Z * list (Stop coord)) :
  append_route repr_coord _str ir
  = (_str ++ route_text repr_coord (fst ir) (snd ir))%string.
Proof.
  unfold route_text, append_route. simpl. now rewrite append_assoc.
Qed.

(** The loop only ever appends to what it has. *)
Lemma print_loop (l : list (Z * list (Stop coord))) :
  forall _str,
    fold_left (append_route repr_coord) l _str
    = (_str ++ fold_left (append_route repr_coord) l "")%string.
Proof.
  induction l as [|ir l IH]; intros _str; simpl.
  - now rewrite append_empty_r.
  - rewrite IH. rewrite (IH (append_route repr_coord "" ir)).
    rewrite (append_route_text _str), (append_route_text "").
    simpl. now rewrite append_assoc.
Qed.


(** The text of a solution with at least one route begins with the header
    of route 0, so the text is empty only for the empty solution. *)
Theorem get_solution_str_header :
  (forall r rest,
     exists text_after,
       get_solution_str repr_coord (r :: rest)
       = ("Route(idx=0)" ++ nl ++ text_after)%string)
  /\ (forall sol, get_solution_str repr_coord sol = ""%string <-> sol = []).
Proof.
  assert (Hhead : forall r rest,
            exists text_after,
              get_solution_str repr_coord (r :: rest)
              = ("Route(idx=0)" ++ nl ++ text_after)%string).
  { intros r rest. unfold get_solution_str, enumerate. simpl.
    rewrite print_loop. rewrite append_route_text. simpl.
    eexists. unfold route_text, append_route. simpl.
    rewrite !append_assoc. reflexivity. }
  split; [exact Hhead|].
  intros sol. split.
  - destruct sol as [|r rest]; [reflexivity|].
    destruct (Hhead r rest) as [text_after ->]. discriminate.
  - now intros ->.
Qed.

End PrintingFacts.

(** ** [visualize_solution] *)

Lemma index_nth_error (A : Type) (l : list A) (k : nat) (x : A) :
  nth_error l k = Some x -> index l (Z.of_nat k) = Ok x.
Proof.
  intros H. unfold index.
  replace (Z.of_nat k <? 0) with false by (symmetry; apply Z.ltb_ge; lia).
  replace (Z.of_nat k <? 0) with false by (symmetry; apply Z.ltb_ge; lia).
  now rewrite Nat2Z.id, H.
Qed.

Lemma index_middle (A : Type) (pre suf : list A) (x : A) :
  index (pre ++ x :: suf) (len pre) = Ok x.
Proof.
  unfold len. apply index_nth_error.
  rewrite nth_error_app2 by lia. now rewrite Nat.sub_diag.
Qed.

Lemma length_consecutive (A : Type) (l : list A) :
  length (consecutive l) = pred (length l).
Proof.
  induction l as [|x [|y l] IH]; try reflexivity.
  change (consecutive (x :: y :: l)) with ((x, y) :: consecutive (y :: l)).
  simpl length in *. now rewrite IH.
Qed.

Lemma in_consecutive (A : Type) (l : list A) (x y : A) :
  In (x, y) (consecutive l) ->
  exists front back, l = front ++ x :: y :: back.
Proof.
  induction l as [|x0 l IH]; [intros []|].
  destruct l as [|y0 l]; [intros []|].
  change (consecutive (x0 :: y0 :: l))
    with ((x0, y0) :: consecutive (y0 :: l)).
  intros [Heq | Hin].
  - injection Heq as <- <-. now exists [], l.
  - destruct (IH Hin) as [front [back ->]].
    now exists (x0 :: front), back.
Qed.

Section VisualizeFacts.

Variable coord : Type.

Lemma collected_more_nil (c : Collected coord) : collected_more c [] [] = c.
Proof.
  unfold collected_more. simpl. rewrite !app_nil_r. now destruct c.
Qed.

Lemma collect_stops_Ok (suf : list (Stop coord)) :
  forall pre c,
    collect_stops (pre ++ suf) (enumerate_from (len pre) suf) c
    = Ok (collected_more c suf (consecutive suf)).
Proof.
  induction suf as [|s suf IH]; intros pre c.
  - simpl. now rewrite collected_more_nil.
  - cbn [collect_stops enumerate_from]. rewrite index_middle. cbn [bind].
    assert (Hlen : len (pre ++ [s]) = len pre + 1)
      by (unfold len; rewrite length_app; simpl length; lia).
    assert (Hr : pre ++ s :: suf = (pre ++ [s]) ++ suf)
      by now rewrite <- app_assoc.
    destruct suf as [|s2 suf].
    + replace (len pre <? len (pre ++ [s]) - 1) with false
        by (symmetry; apply Z.ltb_ge; lia).
      cbn [collect_stops enumerate_from].
      unfold collected_more. simpl. now rewrite !app_nil_r.
    + replace (len pre <? len (pre ++ s :: s2 :: suf) - 1) with true
        by (symmetry; apply Z.ltb_lt; unfold len; rewrite length_app;
            simpl length; lia).
      rewrite Hr, <- Hlen, index_middle. cbn [bind]. rewrite IH.
      f_equal. unfold collected_more. simpl.
      now rewrite <- !app_assoc.
Qed.

Lemma collect_routes_Ok (sol : list (list (Stop coord))) :
  forall start c,
    collect_routes (enumerate_from start sol) c
    = Ok (collected_more c (concat sol) (concat (map (@consecutive _) sol))).
Proof.
  induction sol as [|r sol IH]; intros start c;
    cbn [collect_routes enumerate_from concat map].
  - now rewrite collected_more_nil.
  - change (collect_stops r (enumerate r) c)
      with (collect_stops ([] ++ r)
              (enumerate_from (len (@nil (Stop coord))) r) c).
    rewrite collect_stops_Ok. cbn [bind].
    rewrite IH. f_equal. unfold collected_more. simpl.
    now rewrite !map_app, <- !app_assoc.
Qed.

Lemma skipn_nth_error (A : Type) (l : list A) :
  forall k, (k < length l)%nat ->
            exists x, nth_error l k = Some x
                      /\ skipn k l = x :: skipn (S k) l.
Proof.
  induction l as [|y l IH]; intros k Hk; [simpl in Hk; lia|].
  destruct k as [|k].
  - now exists y.
  - destruct (IH k) as [x [Hx Hs]]; [simpl in Hk; lia|].
    exists x. split; [exact Hx | exact Hs].
Qed.

Lemma index_pair (A : Type) (x y : A) :
  index [x; y] 0 = Ok x /\ index [x; y] 1 = Ok y.
Proof. split; reflexivity. Qed.

Lemma add_lines_Ok (c : Collected coord)
    (pairs : list (Stop coord * Stop coord)) :
  lat_paths c = map (fun p => [lat (fst p); lat (snd p)]) pairs ->
  lon_paths c = map (fun p => [lon (fst p); lon (snd p)]) pairs ->
  forall n k fig,
    (k + n = length pairs)%nat ->
    add_lines c (map Z.of_nat (seq k n)) fig
    = Ok {| Plot.data :=
              Plot.data fig ++ map (@segment_trace coord) (skipn k pairs);
            Plot.layout := Plot.layout fig |}.
Proof.
  intros Hlat Hlon. induction n as [|n IH]; intros k fig Hk;
    cbn [add_lines map seq].
  - rewrite skipn_all2 by lia. simpl. rewrite app_nil_r. now destruct fig.
  - destruct (@skipn_nth_error _ pairs k) as [p [Hp Hs]]; [lia|].
    assert (H1 : index (lat_paths c) (Z.of_nat k)
                 = Ok [lat (fst p); lat (snd p)]).
    { rewrite Hlat. apply index_nth_error.
      now apply (map_nth_error (fun p => [lat (fst p); lat (snd p)])). }
    assert (H2 : index (lon_paths c) (Z.of_nat k)
                 = Ok [lon (fst p); lon (snd p)]).
    { rewrite Hlon. apply index_nth_error.
      now apply (map_nth_error (fun p => [lon (fst p); lon (snd p)])). }
    rewrite H1. cbn [bind].
    rewrite (proj1 (index_pair _ _)), (proj2 (index_pair _ _)). cbn [bind].
    rewrite H2. cbn [bind].
    rewrite (proj1 (index_pair _ _)), (proj2 (index_pair _ _)). cbn [bind].
    rewrite IH by lia. rewrite Hs. simpl. now rewrite <- app_assoc.
Qed.

(** The figure shown: the markers trace over all stops, then one line
    trace per pair of consecutive stops of a route, in order. *)
Lemma visualize_solution_Ok (solution : list (list (Stop coord))) :
  visualize_solution solution
  = Ok {| Plot.data :=
            markers_trace
              (collected_more (nothing_collected coord) (concat solution) [])
            :: map (@segment_trace coord)
                   (concat (map (@consecutive _) solution));
          Plot.layout := Some (the_layout) |}.
Proof.
  unfold visualize_solution, enumerate.
  rewrite collect_routes_Ok. cbn [bind]. cbv zeta.
  set (pairs := concat (map (@consecutive _) solution)).
  set (c := collected_more (nothing_collected coord) (concat solution) pairs).
  assert (Hrange : range (len (lat_paths c))
                   = map Z.of_nat (seq 0 (length pairs))).
  { unfold range, len, c. simpl. now rewrite Nat2Z.id, length_map. }
  rewrite Hrange.
  rewrite (@add_lines_Ok c pairs eq_refl eq_refl (length pairs) 0%nat)
    by reflexivity.
  reflexivity.
Qed.

(** [visualize_solution] raises nothing, whatever the solution, and the
    first trace of the figure it shows has one marker per stop, route after
    route, with the stop's coordinates and its demand as hover text. *)
Theorem visualize_solution_marks_every_stop
    (solution : list (list (Stop coord))) :
  exists fig markers lines,
    visualize_solution solution = Ok fig
    /\ Plot.data fig = markers :: lines
    /\ Plot.lat markers = map (@lat coord) (concat solution)
    /\ Plot.lon markers = map (@lon coord) (concat solution)
    /\ Plot.text markers
       = Some (map (fun s => ("demand: " ++ str (demand s))%string)
                   (concat solution))
    /\ Plot.mode markers = "markers"%string
    /\ Plot.layout fig = Some the_layout.
Proof.
  do 3 eexists. split; [apply visualize_solution_Ok|].
  simpl. repeat split.
Qed.

(** The figure holds the markers trace and, for each route, one line trace
    less than the route has stops (none for an empty route). *)
Theorem visualize_solution_trace_count
    (solution : list (list (Stop coord))) :
  exists fig,
    visualize_solution solution = Ok fig
    /\ length (Plot.data fig)
       = S (list_sum (map (fun r => pred (length r)) solution)).
Proof.
  eexists. split; [apply visualize_solution_Ok|].
  simpl. f_equal. rewrite length_map, length_concat, map_map.
  f_equal. apply map_ext. intros r. apply length_consecutive.
Qed.

(** Every line trace joins two stops that follow each other in one route:
    no line is drawn from one route to another, nor back from the last stop
    of a route to its first. *)
Theorem visualize_solution_lines_stay_in_route
    (solution : list (list (Stop coord))) :
  exists fig,
    visualize_solution solution = Ok fig
    /\ forall t,
         In t (List.tl (Plot.data fig)) ->
         exists r front x y back,
           In r solution
           /\ r = front ++ x :: y :: back
           /\ t = line_trace (lat x) (lat y) (lon x) (lon y).
Proof.
  eexists. split; [apply visualize_solution_Ok|].
  simpl. intros t Ht. apply in_map_iff in Ht.
  destruct Ht as [[x y] [<- Hin]].
  apply in_concat in Hin. destruct Hin as [pairs [Hpairs Hxy]].
  apply in_map_iff in Hpairs. destruct Hpairs as [r [<- Hr]].
  apply in_consecutive in Hxy. destruct Hxy as [front [back ->]].
  exists (front ++ x :: y :: back), front, x, y, back.
  repeat split. exact Hr.
Qed.

End VisualizeFacts.

(** ** The further properties on sample calls *)

Lemma one_tour_within_distance :
  satisfies_dimension
    (model Sample.one_tour_library Sample.three_args)
    (Sample.table Sample.one_tour)
    (distance_dimension
       (formulation Sample.one_tour_library Sample.three_args 1000)).
Proof.
  exists (fun i => nth (Z.to_nat i) [0; 5; 8; 15] 0).
  intros v Hv. vm_compute in Hv. destruct Hv as [<- | []].
  exists 1000. split; [reflexivity|]. split; [reflexivity|].
  intros i Hi. apply one_tour_on_route in Hi.
  destruct Hi as [-> | [-> | [-> | ->]]];
    (split; [vm_compute; split; discriminate|]); intros He;
    try (vm_compute in He; discriminate He).
  - exists 5, 0. repeat split; try reflexivity; lia.
  - exists 3, 0. repeat split; try reflexivity; lia.
  - exists 7, 0. repeat split; try reflexivity; lia.
Qed.

Lemma default_vehicle_count_witness :
  len (DEMAND MoreSamples.plain_args) = NUM_NODES MoreSamples.plain_args
  /\ NUM_VEHICLES MoreSamples.plain_args
     = NUM_NODES MoreSamples.plain_args - 1
  /\ len (VEHICLES MoreSamples.plain_args)
     = NUM_NODES MoreSamples.plain_args - 1.
Proof.
  apply (@default_vehicle_count Z MoreSamples.plain_args).
  - reflexivity.
  - vm_compute. discriminate.
  - left. reflexivity.
Defined.

Lemma default_soft_bound_witness :
  search Sample.one_tour_library MoreSamples.plain_args
  = Ok (SolveWithParameters Sample.one_tour_library
          (formulation Sample.one_tour_library MoreSamples.plain_args 75000)).
Proof.
  apply (@default_soft_bound Z Sample.one_tour_library
           MoreSamples.plain_args).
  - reflexivity.
  - vm_compute. discriminate.
Defined.

Lemma huge_hard_bound_overflows_witness :
  solve Sample.one_tour_library MoreSamples.huge_bound_args 4
  = Raise OverflowError.
Proof.
  apply (@huge_hard_bound_overflows Z Sample.one_tour_library
           MoreSamples.huge_bound_args 4).
  - reflexivity.
  - vm_compute. discriminate.
Defined.

Lemma routes_follow_vehicle_order_witness :
  len Sample.one_tour_solution
  = len (filter (used Sample.one_tour_library Sample.three_args
                      (Sample.table Sample.one_tour))
                (fleet Sample.one_tour_library Sample.three_args)).
Proof.
  apply (@routes_follow_vehicle_order Z Sample.one_tour_library
           Sample.three_args (Sample.table Sample.one_tour) 4
           Sample.one_tour_solution); reflexivity.
Defined.

Lemma stops_record_node_data_witness :
  Forall
    (Forall (fun s =>
               (exists node,
                  index (nodes Sample.three_args) (idx s) = Ok node
                  /\ lat s = Node.lat node /\ lon s = Node.lon node)
               /\ index (DEMAND Sample.three_args) (idx s) = Ok (demand s)))
    Sample.one_tour_solution.
Proof.
  apply (@stops_record_node_data Z Sample.one_tour_library
           Sample.three_args 4 Sample.one_tour_solution).
  reflexivity.
Defined.

Lemma padded_depot_has_no_demand_witness :
  Forall (Forall (fun s => idx s = 0 -> demand s = 0))
         Sample.one_tour_solution.
Proof.
  apply (@padded_depot_has_no_demand Z Sample.one_tour_library
           Sample.three_args 4 Sample.one_tour_solution); reflexivity.
Defined.

Lemma all_unused_gives_empty_solution_witness :
  solve (Sample.library (Some MoreSamples.idle_plan))
        Sample.spare_vehicle_args 0
  = Ok (Some []).
Proof.
  apply (@all_unused_gives_empty_solution Z
           (Sample.library (Some MoreSamples.idle_plan))
           Sample.spare_vehicle_args
           (Sample.table MoreSamples.idle_plan) 0).
  - reflexivity.
  - intros v Hv. vm_compute in Hv.
    destruct Hv as [<- | [<- | []]]; reflexivity.
Defined.

Lemma missing_depot_coordinates_raise_witness :
  solve Sample.one_tour_library MoreSamples.no_nodes_args 1
  = Raise IndexError.
Proof.
  apply (@missing_depot_coordinates_raise Z Sample.one_tour_library
           MoreSamples.no_nodes_args (Sample.table Sample.one_tour) 0).
  - reflexivity.
  - intros v Hv. vm_compute in Hv. destruct Hv as [<- | []]. reflexivity.
  - exists 0. split; [vm_compute; now left | reflexivity].
Defined.

Lemma dropped_position_on_route_never_decodes_witness :
  solve (Sample.library (Some MoreSamples.looping_plan))
        Sample.three_args 5
  <> Ok (Some Sample.one_tour_solution).
Proof.
  apply (@dropped_position_on_route_never_decodes Z
           (Sample.library (Some MoreSamples.looping_plan))
           Sample.three_args (Sample.table MoreSamples.looping_plan) 0 1).
  - reflexivity.
  - vm_compute. now left.
  - reflexivity.
  - exact (@on_route_next
             (model (Sample.library (Some MoreSamples.looping_plan))
                    Sample.three_args)
             (Sample.table MoreSamples.looping_plan) 0 0
             (on_route_start _ _ _) eq_refl).
  - vm_compute. now left.
  - reflexivity.
Defined.

Lemma route_length_within_hard_bound_witness :
  Forall (fun route =>
            exists total,
              route_length Sample.three_args route = Ok total
              /\ total <= 1000)
         Sample.one_tour_solution.
Proof.
  apply (@route_length_within_hard_bound Z Sample.one_tour_library
           Sample.three_args (Sample.table Sample.one_tour) 4 1000
           Sample.one_tour_solution).
  - reflexivity.
  - exact one_tour_within_distance.
  - reflexivity.
Defined.

Lemma solve_total_witness :
  exists sol, solve Sample.one_tour_library Sample.three_args 4
              = Ok (Some sol).
Proof.
  apply (@solve_total Z Sample.one_tour_library Sample.three_args
           (Sample.table Sample.one_tour) 4).
  - reflexivity.
  - intros v Hv _. vm_compute in Hv. destruct Hv as [<- | []].
    exists [0; 1; 2; 3]. split; [|split].
    + apply path_step; [reflexivity|]. apply path_step; [reflexivity|].
      apply path_step; [reflexivity|]. apply path_end. reflexivity.
    + simpl. lia.
    + intros p [<- | [<- | [<- | [<- | []]]]];
        do 3 eexists; repeat split; reflexivity.
Defined.

Lemma dist_is_measured_from_start_witness :
  Forall2
    (fun v route =>
       route_of Sample.one_tour_library Sample.three_args
                (Sample.table Sample.one_tour) 4 v = Ok route
       /\ Forall
            (fun s =>
               matrix_entry Sample.three_args
                 (IndexToNode (manager Sample.one_tour_library
                                       Sample.three_args)
                    (Start (model Sample.one_tour_library Sample.three_args)
                           v))
                 (idx s)
               = Ok (dist s))
            route)
    (filter (used Sample.one_tour_library Sample.three_args
                  (Sample.table Sample.one_tour))
            (fleet Sample.one_tour_library Sample.three_args))
    Sample.one_tour_solution.
Proof.
  apply (@dist_is_measured_from_start Z Sample.one_tour_library
           Sample.three_args (Sample.table Sample.one_tour) 4
           Sample.one_tour_solution); reflexivity.
Defined.
